(** * gencpplib: the message processor and its queue

    A shallow embedding of [src/message_processor.cxx] and [src/queue.h]:
    the verbosity filter, the text formatting of [make_msg_to_display], the
    ticker state machine of [Impl::loop], the singleton life cycle of
    [Message_Processor] and the shutdown protocol of [Impl::~Impl].

    Threads are modelled by interleaving: each public operation and each
    iteration of the consumer loop is one atomic step on a shared state. *)

From Stdlib Require Import ZArith String Ascii DecimalString Lia.
From stdpp Require Import gmap strings.

Local Open Scope Z_scope.

(** ** Machine integers

    The C++ types are those of an LP64 platform: [int] has 32 bits,
    [size_t] and [pthread_t] (an [unsigned long]) have 64 bits. *)

Definition int_bits : Z := 32.
Definition ulong_bits : Z := 64.

(** Conversion to [int]: reduction modulo 2^32 into [-2^31, 2^31). *)
Definition to_int (z : Z) : Z :=
  (z + 2 ^ (int_bits - 1)) mod 2 ^ int_bits - 2 ^ (int_bits - 1).

(** Conversion to [unsigned long] / [size_t]: reduction modulo 2^64. *)
Definition to_ulong (z : Z) : Z := z mod 2 ^ ulong_bits.

Definition INT_MAX : Z := 2 ^ (int_bits - 1) - 1.

(** [std::string::npos], the largest [size_t]. *)
Definition npos : Z := 2 ^ ulong_bits - 1.

(** ** Verbosity levels *)

(** Modelled from the spec: [gen/gendefs.h], which declares the enum
    [re_gen::Verbosity_Level], is not among the sources.  The five levels and
    their values 0..4 are those of the specification's severity table; the
    order of the rows of [msg_prefixes] in the source agrees with them. *)
Inductive Verbosity_Level : Set :=
| VERBOSITY_QUIET
| VERBOSITY_ERRORS
| VERBOSITY_MAJOR_STEPS
| VERBOSITY_MINOR_STEPS
| VERBOSITY_EVERYTHING.

Definition level_value (v : Verbosity_Level) : Z :=
  match v with
  | VERBOSITY_QUIET => 0
  | VERBOSITY_ERRORS => 1
  | VERBOSITY_MAJOR_STEPS => 2
  | VERBOSITY_MINOR_STEPS => 3
  | VERBOSITY_EVERYTHING => 4
  end.

(** [a <= b] on two enumerators compares their values. *)
Definition level_le (a b : Verbosity_Level) : bool :=
  level_value a <=? level_value b.

Definition level_eqb (a b : Verbosity_Level) : bool :=
  level_value a =? level_value b.

(** A value-initialised [Verbosity_Level] (what [std::map::operator[]]
    inserts for a missing key) has value 0. *)
Definition level_default : Verbosity_Level := VERBOSITY_QUIET.

Definition MESSAGE_PROCESSOR_VERBOSITY : Verbosity_Level := VERBOSITY_EVERYTHING.

Definition msg_prefixes (v : Verbosity_Level) : string :=
  match v with
  | VERBOSITY_QUIET => ""
  | VERBOSITY_ERRORS => "Error: "
  | VERBOSITY_MAJOR_STEPS => "Info:  "
  | VERBOSITY_MINOR_STEPS => "Info:  "
  | VERBOSITY_EVERYTHING => "Debug: "
  end.

(** ** Strings and stream formatting *)

Definition BS : ascii := Ascii.ascii_of_nat 8.
Definition LF : ascii := Ascii.ascii_of_nat 10.
Definition BACKSLASH : ascii := Ascii.ascii_of_nat 92.

(** [std::endl] as it appears in the output. *)
Definition endl : string := String LF "".

(** [s.size()] as a [size_t]. *)
Definition string_size (s : string) : Z := Z.of_nat (String.length s).

(** [s.substr(0, n)]. *)
Definition substr0 (n : nat) (s : string) : string := String.substring 0 n s.

(** The last position at which [pat] occurs in [s], positions counted from
    [i] at the head of [s]. *)
Fixpoint rfind_from (pat s : string) (i : nat) : option nat :=
  match s with
  | EmptyString => if String.prefix pat s then Some i else None
  | String _ s' =>
      match rfind_from pat s' (S i) with
      | Some j => Some j
      | None => if String.prefix pat s then Some i else None
      end
  end.

(** [s.rfind(pat)]: the last position of [pat] in [s], or [npos]. *)
Definition rfind (pat s : string) : Z :=
  match rfind_from pat s 0 with
  | Some j => Z.of_nat j
  | None => npos
  end.

(** The ticker sentinel. *)
Definition ticker_mark : string := " .".

(** The test [msg.rfind(" .") == msg.size() - 2] of the source; the
    subtraction is done in [size_t]. *)
Definition is_ticker (msg : string) : bool :=
  rfind ticker_mark msg =? to_ulong (string_size msg - 2).

(** [os << n] for an unsigned integer. *)
Definition dec (n : Z) : string := NilZero.string_of_uint (N.to_uint (Z.to_N n)).

(** [os << std::setw(2) << n]: right-aligned in a field of width 2. *)
Definition setw2 (s : string) : string :=
  match String.length s with
  | O => "  "
  | S O => String " " s
  | _ => s
  end.

(** ** Messages *)

Inductive Action : Set :=
| ACTION_KILL
| ACTION_DISPLAY_MSG.

Record Message_Parms : Set := mkMessage_Parms {
  action : Action;
  tid : Z;                      (* pthread_t *)
  src : Z;                      (* int *)
  severity : Verbosity_Level;
  msg : string
}.

(** ** [std::map] with [operator[]] *)

(** [m[k]]: the value at [k], after inserting a value-initialised entry when
    [k] is missing. *)
Definition subscript (m : gmap Z Verbosity_Level) (k : Z)
  : gmap Z Verbosity_Level * Verbosity_Level :=
  match m !! k with
  | Some v => (m, v)
  | None => (<[k := level_default]> m, level_default)
  end.

(** The value [m[k]] reads, without the insertion. *)
Definition ceiling_of (m : gmap Z Verbosity_Level) (k : Z) : Verbosity_Level :=
  default level_default (m !! k).

(** ** [Message_Processor::Impl] *)

Record Impl : Type := mkImpl {
  we_are_dead : bool;
  is_processing : bool;
  message_processor_src_id : Z;
  message_queue : list Message_Parms;
  impl_thread : Z;
  message_source_name_map : gmap Z string;
  message_source_verbosity_map : gmap Z Verbosity_Level;
  overall_verbosity : Verbosity_Level
}.

Definition set_we_are_dead (b : bool) (s : Impl) : Impl :=
  mkImpl b (is_processing s) (message_processor_src_id s) (message_queue s)
    (impl_thread s) (message_source_name_map s)
    (message_source_verbosity_map s) (overall_verbosity s).

Definition set_is_processing (b : bool) (s : Impl) : Impl :=
  mkImpl (we_are_dead s) b (message_processor_src_id s) (message_queue s)
    (impl_thread s) (message_source_name_map s)
    (message_source_verbosity_map s) (overall_verbosity s).

Definition set_message_queue (q : list Message_Parms) (s : Impl) : Impl :=
  mkImpl (we_are_dead s) (is_processing s) (message_processor_src_id s) q
    (impl_thread s) (message_source_name_map s)
    (message_source_verbosity_map s) (overall_verbosity s).

Definition set_name_map (m : gmap Z string) (s : Impl) : Impl :=
  mkImpl (we_are_dead s) (is_processing s) (message_processor_src_id s)
    (message_queue s) (impl_thread s) m
    (message_source_verbosity_map s) (overall_verbosity s).

Definition set_verbosity_map (m : gmap Z Verbosity_Level) (s : Impl) : Impl :=
  mkImpl (we_are_dead s) (is_processing s) (message_processor_src_id s)
    (message_queue s) (impl_thread s) (message_source_name_map s)
    m (overall_verbosity s).

Definition set_overall (v : Verbosity_Level) (s : Impl) : Impl :=
  mkImpl (we_are_dead s) (is_processing s) (message_processor_src_id s)
    (message_queue s) (impl_thread s) (message_source_name_map s)
    (message_source_verbosity_map s) v.

(** ** [Queue<Message_Parms>]

    Under the queue's mutex [push] appends at the tail and [pop] removes the
    head; [pop] on an empty queue blocks, which is [None] here. *)

Definition push (obj : Message_Parms) (q : list Message_Parms) : list Message_Parms :=
  q ++ [obj].

Definition pop (q : list Message_Parms) : option (Message_Parms * list Message_Parms) :=
  match q with
  | [] => None
  | obj :: q' => Some (obj, q')
  end.

(** ** [Impl::make_msg_to_display] *)

(** The source prefix [msg_src_str]. *)
Definition msg_src_str (names : gmap Z string) (m : Message_Parms) : string :=
  match names !! src m with
  | Some name =>
      if String.eqb (substr0 2 (msg m)) "::" then name else name +:+ " - "
  | None => ""
  end.

(** The text assigned to [*msg_to_display]. *)
Definition display_text (names : gmap Z string) (m : Message_Parms) : string :=
  if level_eqb (severity m) VERBOSITY_QUIET then msg m
  else
    "[" +:+ setw2 (dec (tid m)) +:+ "] " +:+ msg_prefixes (severity m) +:+ " "
      +:+ msg_src_str names m +:+ msg m
      +:+ (if is_ticker (msg m) then "" else endl).

(** The function itself: the state after the call (the verbosity map may have
    gained an entry), the text, and the returned flag. *)
Definition make_msg_to_display (s : Impl) (m : Message_Parms) : Impl * string * bool :=
  let text := display_text (message_source_name_map s) m in
  let '(vm, c) := subscript (message_source_verbosity_map s) (src m) in
  (set_verbosity_map vm s, text,
   level_le (severity m) c && level_le (severity m) (overall_verbosity s)).


(** ** [Impl::loop] *)

(** The local variables of [loop]. *)
Record Loop_Locals : Set := mkLocals {
  tick_count : Z;               (* int *)
  prev_msg : string;
  msg_to_display : string;
  prev_tid : Z;                 (* int *)
  prev_src : Z;                 (* int *)
  prev_severity : Verbosity_Level
}.

Definition loop_init : Loop_Locals :=
  mkLocals 0 "" "" (-1) (-1) VERBOSITY_ERRORS.

Definition tick_string (i : Z) : string :=
  match i with
  | 0 => String BS "|"
  | 1 => String BS "/"
  | 2 => String BS "-"
  | _ => String BS "\"
  end.

Definition mod_tick_string (i : Z) : string :=
  match i with
  | 0 => String BS "!"
  | 1 => String BS "X"
  | 2 => String BS "="
  | _ => String BS "V"
  end.

(** [tick_count++]; the increment of an [int] at [INT_MAX] is undefined in
    C++ and wraps here. *)
Definition incr (n : Z) : Z := to_int (n + 1).

(** [message_parms.src == prev_src && message_parms.tid == prev_tid]: the
    second comparison is between a [pthread_t] and an [int], which is
    converted to [unsigned long] first. *)
Definition same_source (m : Message_Parms) (l : Loop_Locals) : bool :=
  (src m =? prev_src l) && (tid m =? to_ulong (prev_tid l)).

(** The branch for a ticker message that is to be displayed. *)
Definition display_ticker (m : Message_Parms) (l : Loop_Locals) : Loop_Locals * string :=
  if negb (tick_count l =? 0) then
    if same_source m l then
      if negb (String.eqb (msg m) (prev_msg l)) then
        (mkLocals 1 (msg m) (msg_to_display l) (prev_tid l) (prev_src l) (prev_severity l),
         endl +:+ msg_to_display l +:+ tick_string 0)
      else
        (mkLocals (incr (tick_count l)) (prev_msg l) (msg_to_display l) (prev_tid l)
           (prev_src l) (prev_severity l),
         tick_string (Z.land (tick_count l) 3))
    else
      (mkLocals (incr (tick_count l)) (prev_msg l) (msg_to_display l) (prev_tid l)
         (prev_src l) (prev_severity l),
       mod_tick_string (Z.land (tick_count l) 3))
  else
    (mkLocals 1 (msg m) (msg_to_display l) (to_int (tid m)) (src m) (prev_severity l),
     msg_to_display l +:+ tick_string 0).

(** The branch for a normal message that is to be displayed. *)
Definition display_normal (m : Message_Parms) (l : Loop_Locals) : Loop_Locals * string :=
  let lead :=
    if negb (tick_count l =? 0) then endl
    else if level_eqb (prev_severity l) VERBOSITY_QUIET
            && negb (level_eqb (severity m) VERBOSITY_QUIET) then endl
    else "" in
  (mkLocals 0 (msg m) (msg_to_display l) (to_int (tid m)) (src m) (severity m),
   lead +:+ msg_to_display l).

Definition display (m : Message_Parms) (l : Loop_Locals) : Loop_Locals * string :=
  if is_ticker (msg m) then display_ticker m l else display_normal m l.

Definition set_msg_to_display (text : string) (l : Loop_Locals) : Loop_Locals :=
  mkLocals (tick_count l) (prev_msg l) text (prev_tid l) (prev_src l) (prev_severity l).

(** What one iteration does with the message it popped: the new state, the
    new locals and the text written to [std::cerr].  [Action] has no third
    enumerator, so the branch for an unknown action is never taken; no
    operation of the model throws, so neither is the [catch]. *)
Definition loop_body (s : Impl) (l : Loop_Locals) (m : Message_Parms)
  : Impl * Loop_Locals * string :=
  match action m with
  | ACTION_KILL => (set_we_are_dead true s, l, "")
  | ACTION_DISPLAY_MSG =>
      let '(s', text, ok) := make_msg_to_display s m in
      let l' := set_msg_to_display text l in
      if ok then let '(l'', out) := display m l' in (s', l'', out)
      else (s', l', "")
  end.

(** The statements after the [do ... while]. *)
Definition loop_exit (s : Impl) : Impl * string :=
  let s1 := set_is_processing false s in
  let m := mkMessage_Parms ACTION_DISPLAY_MSG (impl_thread s)
             (message_processor_src_id s) VERBOSITY_MINOR_STEPS "Impl::run - exit" in
  let '(s2, text, ok) := make_msg_to_display s1 m in
  (s2, if ok then text +:+ endl else "").

(** The consumer thread: inside the loop with its locals, or returned. *)
Inductive Consumer : Set :=
| Looping (l : Loop_Locals)
| Returned.

Record System : Type := mkSystem {
  impl : Impl;
  consumer : Consumer
}.

(** One iteration of the loop, with the loop test and, when the loop ends,
    the statements after it.  [None]: the thread has returned or is blocked
    in [pop]. *)
Definition loop_iteration (st : System) : option (System * string) :=
  match consumer st with
  | Returned => None
  | Looping l =>
      match pop (message_queue (impl st)) with
      | None => None
      | Some (m, q) =>
          let s1 := set_is_processing true
                      (set_message_queue q (set_is_processing false (impl st))) in
          let '(s2, l', out) := loop_body s1 l m in
          if we_are_dead s2 then
            let '(s3, out') := loop_exit s2 in
            Some (mkSystem s3 Returned, out +:+ out')
          else Some (mkSystem s2 (Looping l'), out)
      end
  end.

(** ** The public operations of [Message_Processor] *)

Definition set_overall_verbosity (v : Verbosity_Level) (s : Impl) : Impl :=
  set_overall v s.

Definition register_msg_src (verbosity : Verbosity_Level) (src_str : string) (s : Impl)
  : Impl * Z :=
  let msg_src_id := to_int (Z.of_nat (base.size (message_source_name_map s))) in
  (set_verbosity_map (<[msg_src_id := verbosity]> (message_source_verbosity_map s))
     (set_name_map (<[msg_src_id := src_str]> (message_source_name_map s)) s),
   msg_src_id).

(** [self] is the caller's [pthread_self()]. *)
Definition process_msg (self msg_src_id : Z) (sev : Verbosity_Level) (msg_str : string)
    (s : Impl) : Impl :=
  if level_le sev (overall_verbosity s) then
    let '(vm, c) := subscript (message_source_verbosity_map s) msg_src_id in
    let s' := set_verbosity_map vm s in
    if level_le sev c then
      set_message_queue
        (push (mkMessage_Parms ACTION_DISPLAY_MSG self msg_src_id sev msg_str)
           (message_queue s')) s'
    else s'
  else s.

(** ** Interleavings *)

Inductive Op : Set :=
| Call_process_msg (self msg_src_id : Z) (sev : Verbosity_Level) (msg_str : string)
| Call_set_overall_verbosity (v : Verbosity_Level)
| Call_register_msg_src (verbosity : Verbosity_Level) (src_str : string)
| Consumer_iteration.

Definition on_impl (f : Impl -> Impl) (st : System) : System :=
  mkSystem (f (impl st)) (consumer st).

(** One scheduled step and what it writes; scheduling a consumer that cannot
    move changes nothing. *)
Definition step (o : Op) (st : System) : System * string :=
  match o with
  | Call_process_msg self i sev str => (on_impl (process_msg self i sev str) st, "")
  | Call_set_overall_verbosity v => (on_impl (set_overall_verbosity v) st, "")
  | Call_register_msg_src v str => (on_impl (fun s => fst (register_msg_src v str s)) st, "")
  | Consumer_iteration =>
      match loop_iteration st with
      | Some r => r
      | None => (st, "")
      end
  end.

Fixpoint run (ops : list Op) (st : System) : System * string :=
  match ops with
  | [] => (st, "")
  | o :: ops' =>
      let '(st1, out1) := step o st in
      let '(st2, out2) := run ops' st1 in
      (st2, out1 +:+ out2)
  end.

(** *** [register_msg_src] statement by statement

    [register_msg_src] takes no lock, so other threads can run between its
    three statements. *)

(** [int msg_src_id = pimpl->message_source_name_map.size();] *)
Definition register_size (s : Impl) : Z :=
  to_int (Z.of_nat (base.size (message_source_name_map s))).

(** [pimpl->message_source_name_map[msg_src_id] = src_str;] *)
Definition register_name (msg_src_id : Z) (src_str : string) (s : Impl) : Impl :=
  set_name_map (<[msg_src_id := src_str]> (message_source_name_map s)) s.

(** [pimpl->message_source_verbosity_map[msg_src_id] = verbosity;] *)
Definition register_level (msg_src_id : Z) (verbosity : Verbosity_Level) (s : Impl) : Impl :=
  set_verbosity_map (<[msg_src_id := verbosity]> (message_source_verbosity_map s)) s.

(** A scheduled step: a step of [Op] as a whole, or a call of
    [register_msg_src] spread out, with the steps [after_size] running
    between its first and its second statement and the steps [after_name]
    between its second and its third. *)
Inductive Sched_Op : Set :=
| Whole (o : Op)
| Split_register (verbosity : Verbosity_Level) (src_str : string)
    (after_size after_name : list Op).

(** One scheduled step: the state, what is written, and the id returned when
    the step is a call of [register_msg_src]. *)
Definition sched_step (o : Sched_Op) (st : System) : System * string * list Z :=
  match o with
  | Whole o' =>
      let '(st', out) := step o' st in
      (st', out,
       match o' with
       | Call_register_msg_src _ _ => [register_size (impl st)]
       | _ => []
       end)
  | Split_register verbosity src_str after_size after_name =>
      let msg_src_id := register_size (impl st) in
      let '(st1, out1) := run after_size st in
      let st2 := on_impl (register_name msg_src_id src_str) st1 in
      let '(st3, out2) := run after_name st2 in
      (on_impl (register_level msg_src_id verbosity) st3, out1 +:+ out2, [msg_src_id])
  end.

Fixpoint run_sched (ops : list Sched_Op) (st : System) : System * string * list Z :=
  match ops with
  | [] => (st, "", [])
  | o :: ops' =>
      let '(st1, out1, ids1) := sched_step o st in
      let '(st2, out2, ids2) := run_sched ops' st1 in
      (st2, out1 +:+ out2, ids1 ++ ids2)
  end.

(** ** Construction, the singleton and destruction *)

(** Modelled from the spec: [re_gen::Gen_Err], the exception class of the
    missing [gen/gendefs.h]; an error value carrying its message. *)
Inductive Gen_Err : Set :=
| mkGen_Err (what : string).

(** The members as the constructor of [Impl] leaves them when the consumer
    thread [t] was started. *)
Definition Impl_init (_overall_verbosity : Verbosity_Level) (t : Z) : Impl :=
  mkImpl false false 0 [] t
    (<[0 := "Message_Processor"]> ∅)
    (<[0 := MESSAGE_PROCESSOR_VERBOSITY]> ∅)
    _overall_verbosity.

(** [Impl::Impl].  [thread] is what [pthread_create] did: [Some t] when it
    started the consumer with handle [t], [None] when it failed.  The result
    carries the text written to [std::cerr]. *)
Definition Impl_ctor (_overall_verbosity : Verbosity_Level) (thread : option Z)
  : string * (Gen_Err + Impl) :=
  match thread with
  | Some t => ("", inr (Impl_init _overall_verbosity t))
  | None =>
      (if level_le VERBOSITY_ERRORS MESSAGE_PROCESSOR_VERBOSITY
          && level_le VERBOSITY_ERRORS _overall_verbosity
       then msg_prefixes VERBOSITY_ERRORS +:+ "Impl::Impl - error in pthread_mutex_init" +:+ endl
       else "",
       inl (mkGen_Err "error in pthread_mutex_init"))
  end.

Definition already_initialized : Gen_Err :=
  mkGen_Err "Message_Processor::get_message_processor - Message_Processor singleton already initialized".

Definition never_initialized : Gen_Err :=
  mkGen_Err "Message_Processor::get_message_processor - Message_Processor singleton was never initialized".

(** The outcome of a constructor call: the new value of the global
    [singleton_message_processor] (0 is the null pointer), the text written
    to [std::cerr], and either the exception that leaves the constructor or
    the constructed object (its [Impl] and the consumer thread). *)
Record Construction : Type := mkConstruction {
  singleton_after : Z;
  written : string;
  outcome : Gen_Err + System
}.

(** [Message_Processor::Message_Processor], for the object at address [this],
    called by thread [self] when the global holds [singleton]. *)
Definition Message_Processor_ctor (this self : Z) (overall_verbosity : Verbosity_Level)
    (thread : option Z) (singleton : Z) : Construction :=
  if negb (singleton =? 0) then mkConstruction singleton "" (inl already_initialized)
  else
    (* try { singleton_message_processor = this; ... *)
    match Impl_ctor overall_verbosity thread with
    | (out, inr s) =>
        let s' := process_msg self (message_processor_src_id s) VERBOSITY_EVERYTHING
                    "::Message_Processor - started Message_Processor" s in
        mkConstruction this out (inr (mkSystem s' (Looping loop_init)))
    | (out, inl e) =>
        (* catch (...): pimpl is still 0, nothing is deleted; rethrow *)
        mkConstruction this
          (out +:+
           (if level_le VERBOSITY_ERRORS MESSAGE_PROCESSOR_VERBOSITY
               && level_le VERBOSITY_ERRORS overall_verbosity
            then msg_prefixes VERBOSITY_ERRORS
                   +:+ "Message_Processor::Message_Processor - unknown exception" +:+ endl
            else ""))
          (inl e)
    end.

(** [Message_Processor::get_message_processor]. *)
Definition get_message_processor (singleton : Z) : Gen_Err + Z :=
  if singleton =? 0 then inl never_initialized else inr singleton.

(** [Message_Processor::~Message_Processor] deletes [pimpl] and leaves the
    global [singleton_message_processor] as it is. *)
Definition Message_Processor_dtor_singleton (singleton : Z) : Z := singleton.

(** *** [Impl::~Impl] *)

Record timeval : Set := mkTimeval { tv_sec : Z; tv_usec : Z }.

Definition microseconds (t : timeval) : Z := tv_sec t * 1000000 + tv_usec t.

Definition kill_msg (self : Z) (s : Impl) : Message_Parms :=
  mkMessage_Parms ACTION_DISPLAY_MSG self (message_processor_src_id s)
    VERBOSITY_MINOR_STEPS "killing message processor".

Definition kill_act (self : Z) (s : Impl) : Message_Parms :=
  mkMessage_Parms ACTION_KILL self (message_processor_src_id s) VERBOSITY_QUIET "".

(** The two pushes that open the destructor. *)
Definition dtor_pushes (self : Z) (s : Impl) : Impl :=
  let s1 := set_message_queue (push (kill_msg self s) (message_queue s)) s in
  set_message_queue (push (kill_act self s) (message_queue s1)) s1.

(** [n] consumer iterations, as far as the consumer can move. *)
Fixpoint consumer_runs (n : nat) (st : System) : System * string :=
  match n with
  | O => (st, "")
  | S n' =>
      match loop_iteration st with
      | None => (st, "")
      | Some (st1, out1) =>
          let '(st2, out2) := consumer_runs n' st1 in (st2, out1 +:+ out2)
      end
  end.

(** [for (int i = 0; !we_are_dead && i < 10; ++i) select(0, 0, 0, 0, &timeout)]
    with [left] iterations to go.  [sched i] is the number of iterations the
    consumer completes during the [i]-th [select] ([sched 0]: between the
    pushes and the first test of the loop).  The result lists the timeouts
    slept. *)
Fixpoint dtor_wait (left : nat) (i : nat) (sched : nat -> nat) (st : System)
  : System * string * list timeval :=
  match left with
  | O => (st, "", [])
  | S left' =>
      if we_are_dead (impl st) then (st, "", [])
      else
        let timeout := mkTimeval 0 100000 in
        let '(st1, out1) := consumer_runs (sched i) st in
        let '(st2, out2, slept) := dtor_wait left' (S i) sched st1 in
        (st2, out1 +:+ out2, timeout :: slept)
  end.

(** The whole destructor, run by thread [self]: the state it leaves, what
    reached [std::cerr] meanwhile, and the timeouts it slept. *)
Definition Impl_dtor (self : Z) (sched : nat -> nat) (st : System)
  : System * string * list timeval :=
  let '(st0, out0) := consumer_runs (sched O) (on_impl (dtor_pushes self) st) in
  let '(st1, out1, slept) := dtor_wait 10 1 sched st0 in
  let m := mkMessage_Parms ACTION_DISPLAY_MSG self (message_processor_src_id (impl st1))
             VERBOSITY_EVERYTHING "Impl::~Impl" in
  let '(s2, text, ok) := make_msg_to_display (impl st1) m in
  (mkSystem s2 (consumer st1),
   out0 +:+ out1 +:+ (if ok then text +:+ endl else ""), slept).

(** *** More of [Queue] *)

(** [wait_empty]: returns when the queue is empty and blocks ([None])
    otherwise. *)
Definition wait_empty (q : list Message_Parms) : option unit :=
  match q with
  | [] => Some tt
  | _ :: _ => None
  end.

(** The objects of a list pushed one after the other. *)
Definition pushes (objs q : list Message_Parms) : list Message_Parms :=
  fold_left (fun q' obj => push obj q') objs q.

(** [n] calls of [pop] in a row by one thread: the objects returned, in the
    order of the calls, and the queue left; [None] when one of the calls
    finds the queue empty and blocks. *)
Fixpoint pops (n : nat) (q : list Message_Parms)
  : option (list Message_Parms * list Message_Parms) :=
  match n with
  | O => Some ([], q)
  | S n' =>
      match pop q with
      | None => None
      | Some (obj, q') =>
          match pops n' q' with
          | None => None
          | Some (objs, q'') => Some (obj :: objs, q'')
          end
      end
  end.

(** ** [functional.h]

    The algorithms walk the range [[in, in_end)], here the list [input], and
    write through an output iterator; the output iterator is a
    [back_inserter], as in the examples of the header, and [out] is the
    content of its container. *)

Section Functional.
Context {A B : Type}.
Variable condition : A -> bool.

(** [dynamic_cast<Cast_T>( *in)]: whatever the cast yields for an element
    (the null pointer for an object of another class). *)
Variable dynamic_cast : A -> B.

Fixpoint copy_if (input out : list A) : list A :=
  match input with
  | [] => out
  | x :: input' => copy_if input' (if condition x then out ++ [x] else out)
  end.

Fixpoint cast (input : list A) (out : list B) : list B :=
  match input with
  | [] => out
  | x :: input' => cast input' (out ++ [dynamic_cast x])
  end.

Fixpoint cast_if (input : list A) (out : list B) : list B :=
  match input with
  | [] => out
  | x :: input' =>
      cast_if input' (if condition x then out ++ [dynamic_cast x] else out)
  end.

(** [split_if] returns [out1]; the second component is what the container
    behind [out2] holds afterwards. *)
Fixpoint split_if (input out1 out2 : list A) : list A * list A :=
  match input with
  | [] => (out1, out2)
  | x :: input' =>
      if condition x then split_if input' (out1 ++ [x]) out2
      else split_if input' out1 (out2 ++ [x])
  end.
End Functional.

(** ** Notions used in the statements *)

(** The render decision, read off the current state. *)
Definition passes (s : Impl) (m : Message_Parms) : bool :=
  level_le (severity m) (ceiling_of (message_source_verbosity_map s) (src m))
  && level_le (severity m) (overall_verbosity s).

(** [s] ends with the two characters of the sentinel. *)
Definition ends_with_mark (s : string) : Prop := exists p, s = p +:+ ticker_mark.

(** A glyph of the normal rotation: a backspace and one of four symbols. *)
Definition is_tick_glyph (g : string) : Prop :=
  exists c : ascii, g = String BS (String c "")
                    /\ (c = "|" \/ c = "/" \/ c = "-" \/ c = BACKSLASH)%char.

(** A glyph of the rotation for an interrupting source. *)
Definition is_mod_tick_glyph (g : string) : Prop :=
  exists c : ascii, g = String BS (String c "")
                    /\ (c = "!" \/ c = "X" \/ c = "=" \/ c = "V")%char.

Definition total_microseconds (slept : list timeval) : Z :=
  foldr (fun t acc => microseconds t + acc) 0 slept.

(** A processor constructed with the default verbosity whose consumer has
    thread id 2; the Everything-level start message does not pass the
    MinorSteps ceiling, so the queue is empty. *)
Definition fresh_system : System :=
  mkSystem (Impl_init VERBOSITY_MINOR_STEPS 2) (Looping loop_init).

(** The glyphs of [n] successive ticks, the first at tick count [k]. *)
Fixpoint ticks (k : Z) (n : nat) : list string :=
  match n with
  | O => []
  | S n' => tick_string (Z.land k 3) :: ticks (k + 1) n'
  end.

(** Writing a list of pieces one after the other. *)
Definition write_all (pieces : list string) : string := foldr String.append "" pieces.

(** [m'] carries the source id, the thread id and the text that the loop
    remembers in [l]; these are the comparisons the loop makes. *)
Definition same_as_remembered (m' : Message_Parms) (l : Loop_Locals) : Prop :=
  src m' = prev_src l /\ tid m' = to_ulong (prev_tid l) /\ msg m' = prev_msg l.

(** Two verbosity maps that read the same through [operator[]]. *)
Definition same_ceilings (a b : gmap Z Verbosity_Level) : Prop :=
  forall j : Z, ceiling_of a j = ceiling_of b j.

(** Two states that differ at most by entries [operator[]] inserted. *)
Definition similar (s t : Impl) : Prop :=
  exists vm : gmap Z Verbosity_Level,
    t = set_verbosity_map vm s /\ same_ceilings (message_source_verbosity_map s) vm.

Definition similar_sys (st st' : System) : Prop :=
  similar (impl st) (impl st') /\ consumer st' = consumer st.

(** The name map holds exactly the ids 0 .. size - 1. *)
Definition dense (names : gmap Z string) : Prop :=
  forall k : Z, is_Some (names !! k) <-> 0 <= k < Z.of_nat (base.size names).

Definition is_registration (o : Op) : bool :=
  match o with
  | Call_register_msg_src _ _ => true
  | _ => false
  end.

(** No call of [register_msg_src] among the steps. *)
Definition no_registration (ops : list Op) : bool :=
  forallb (fun o => negb (is_registration o)) ops.

(** The name a scheduled step registers, if it is a call of
    [register_msg_src]. *)
Definition registered_name (o : Sched_Op) : option string :=
  match o with
  | Whole (Call_register_msg_src _ src_str) => Some src_str
  | Whole _ => None
  | Split_register _ src_str _ _ => Some src_str
  end.

(** No other call of [register_msg_src] runs inside this step: while a
    call of [register_msg_src] is spread out, only calls of the other
    operations and consumer iterations run between its statements. *)
Definition serialized (o : Sched_Op) : bool :=
  match o with
  | Whole _ => true
  | Split_register _ _ after_size after_name =>
      no_registration after_size && no_registration after_name
  end.

(** The number of calls of [register_msg_src] in a schedule. *)
Fixpoint sched_registrations (ops : list Sched_Op) : nat :=
  match ops with
  | [] => O
  | o :: ops' =>
      match registered_name o with
      | Some _ => S (sched_registrations ops')
      | None => sched_registrations ops'
      end
  end.

(** The consumer is in its loop, has not seen a Kill message, and none is
    waiting in the queue. *)
Definition alive (st : System) : Prop :=
  we_are_dead (impl st) = false
  /\ (exists l : Loop_Locals, consumer st = Looping l)
  /\ Forall (fun m => action m = ACTION_DISPLAY_MSG) (message_queue (impl st)).

(** [out] ends with a line break. *)
Definition ends_with_endl (out : string) : Prop := exists p, out = p +:+ endl.


(** What precedes the message text in a rendered line that is not Quiet. *)
Definition line_prefix (names : gmap Z string) (m : Message_Parms) : string :=
  "[" +:+ setw2 (dec (tid m)) +:+ "] " +:+ msg_prefixes (severity m) +:+ " "
    +:+ msg_src_str names m.

(** Nothing was written yet, or the last character written is a line
    break. *)
Definition at_line_start (out : string) : Prop := out = "" \/ ends_with_endl out.

(** What the loop keeps about the text [out] written so far: when it is not
    ticking and the last displayed message was not Quiet, [out] is at a line
    start; the tick count lies between 0 and [bound]. *)
Definition fresh_line_inv (c : Consumer) (out : string) (bound : Z) : Prop :=
  match c with
  | Returned => True
  | Looping l =>
      0 <= tick_count l <= bound
      /\ (tick_count l = 0 -> prev_severity l <> VERBOSITY_QUIET -> at_line_start out)
  end.


(** * Properties *)

(** ** Auxiliary facts *)

Lemma append_nil_l (b : string) : "" +:+ b = b.
Proof. reflexivity. Qed.

Lemma append_cons (x : ascii) (a b : string) : String x a +:+ b = String x (a +:+ b).
Proof. reflexivity. Qed.

Ltac string_simpl := rewrite ?append_cons, ?append_nil_l in *.

Lemma append_assoc (a b c : string) : (a +:+ b) +:+ c = a +:+ (b +:+ c).
Proof. induction a as [|x a IH]; string_simpl; [reflexivity | now rewrite IH]. Qed.

Lemma append_empty_r (a : string) : a +:+ "" = a.
Proof. induction a as [|x a IH]; string_simpl; [reflexivity | now rewrite IH]. Qed.

Lemma length_append (a b : string) :
  String.length (a +:+ b) = (String.length a + String.length b)%nat.
Proof. induction a as [|x a IH]; string_simpl; simpl; [reflexivity | now rewrite IH]. Qed.

Lemma level_le_quiet (v : Verbosity_Level) : level_le VERBOSITY_QUIET v = true.
Proof. destruct v; reflexivity. Qed.

Lemma level_le_default_is_quiet (v : Verbosity_Level) :
  level_le v level_default = level_eqb v VERBOSITY_QUIET.
Proof. destruct v; reflexivity. Qed.

Lemma level_eqb_eq (a b : Verbosity_Level) : level_eqb a b = true <-> a = b.
Proof. destruct a, b; cbv; split; congruence. Qed.

Lemma subscript_value (m : gmap Z Verbosity_Level) (k : Z) :
  (subscript m k).2 = ceiling_of m k.
Proof. unfold subscript, ceiling_of. destruct (m !! k); reflexivity. Qed.

Lemma subscript_map_missing (m : gmap Z Verbosity_Level) (k : Z) :
  m !! k = None -> (subscript m k).1 = <[k := VERBOSITY_QUIET]> m.
Proof. intros H. unfold subscript. rewrite H. reflexivity. Qed.


(** Reading through a map that went through [operator[]] gives what it gave before. *)
Lemma ceiling_of_subscript (m : gmap Z Verbosity_Level) (k j : Z) :
  ceiling_of (subscript m k).1 j = ceiling_of m j.
Proof.
  unfold subscript, ceiling_of.
  destruct (m !! k) eqn:E; simpl; [reflexivity|].
  destruct (decide (k = j)) as [->|Hne].
  - rewrite lookup_insert_eq, E. reflexivity.
  - rewrite lookup_insert_ne by assumption. reflexivity.
Qed.

(** The three components of [make_msg_to_display]. *)
Lemma make_msg_to_display_eq (s : Impl) (m : Message_Parms) :
  make_msg_to_display s m =
  (set_verbosity_map (subscript (message_source_verbosity_map s) (src m)).1 s,
   display_text (message_source_name_map s) m,
   level_le (severity m) (ceiling_of (message_source_verbosity_map s) (src m))
   && level_le (severity m) (overall_verbosity s)).
Proof.
  unfold make_msg_to_display. rewrite <- subscript_value.
  destruct (subscript (message_source_verbosity_map s) (src m)); reflexivity.
Qed.

(** *** The ticker test *)

Lemma ends_with_mark_length (s : string) : ends_with_mark s -> (2 <= String.length s)%nat.
Proof. intros [p ->]. rewrite length_append. simpl. lia. Qed.

Lemma ends_with_mark_cons (c : ascii) (s : string) :
  ends_with_mark (String c s) <-> ends_with_mark s \/ (c = " "%char /\ s = ".").
Proof.
  split.
  - intros [p Hp]. unfold ticker_mark in Hp. destruct p as [|x p]; string_simpl.
    + right. inversion Hp. split; reflexivity.
    + left. inversion Hp. exists p. reflexivity.
  - intros [[p ->] | [-> ->]].
    + exists (String c p). reflexivity.
    + exists "". reflexivity.
Qed.

Lemma prefix_mark (s : string) :
  String.prefix ticker_mark s = true <-> exists r, s = String " " (String "." r).
Proof.
  unfold ticker_mark. split.
  - destruct s as [|a [|b r]]; cbn [String.prefix]; try discriminate.
    + destruct (ascii_dec " " a); discriminate.
    + destruct (ascii_dec " " a) as [<-|]; [|discriminate].
      destruct (ascii_dec "." b) as [<-|]; [|discriminate].
      intros _. exists r. reflexivity.
  - intros [r ->]. cbn [String.prefix].
    destruct (ascii_dec " " " "); [|congruence].
    destruct (ascii_dec "." "."); [|congruence].
    destruct r; reflexivity.
Qed.

(** What [rfind_from] finds for the sentinel: a position inside the text, at
    distance two from the end exactly when the text ends with the sentinel. *)
Lemma rfind_from_mark (s : string) : forall i : nat,
  match rfind_from ticker_mark s i with
  | Some j => (i <= j)%nat /\ (j + 2 <= i + String.length s)%nat
              /\ ((j + 2 = i + String.length s)%nat <-> ends_with_mark s)
  | None => ~ ends_with_mark s
  end.
Proof.
  induction s as [|c s IH]; intros i.
  - simpl. intros H. apply ends_with_mark_length in H. simpl in H. lia.
  - cbn [rfind_from]. specialize (IH (S i)).
    destruct (rfind_from ticker_mark s (S i)) as [j|].
    + destruct IH as (H1 & H2 & H3). cbn [String.length].
      split; [lia|]. split; [lia|].
      rewrite ends_with_mark_cons. split.
      * intros H. left. apply H3. lia.
      * intros [H | [_ ->]]; [apply H3 in H; lia | simpl in H2; lia].
    + destruct (String.prefix ticker_mark (String c s)) eqn:E.
      * apply prefix_mark in E. destruct E as [r E]. inversion E; subst c s.
        cbn [String.length]. split; [lia|]. split; [lia|].
        rewrite ends_with_mark_cons. split.
        -- intros H. right. split; [reflexivity|].
           destruct r; [reflexivity | simpl in H; lia].
        -- intros [H | [_ H]]; [contradiction|].
           inversion H. simpl. lia.
      * rewrite ends_with_mark_cons. intros [H | [-> ->]]; [contradiction|].
        assert (String.prefix ticker_mark " ." = true) as E' by (apply prefix_mark; eauto).
        congruence.
Qed.

(** For every text that is not exactly one character long (and fits a
    [size_t]), the test of the source is the suffix test. *)
Lemma is_ticker_iff_suffix (s : string) :
  string_size s <> 1 -> string_size s < 2 ^ ulong_bits ->
  (is_ticker s = true <-> ends_with_mark s).
Proof.
  unfold is_ticker, rfind, string_size, to_ulong, npos, ulong_bits.
  intros Hne Hlt. pose proof (rfind_from_mark s 0) as H.
  destruct (rfind_from ticker_mark s 0) as [j|].
  - destruct H as (_ & H2 & H3). simpl in H2, H3.
    rewrite Z.eqb_eq, Z.mod_small by lia. rewrite <- H3. lia.
  - split; [|contradiction]. rewrite Z.eqb_eq. intros E. exfalso.
    destruct (String.length s) as [|[|n]] eqn:L.
    + vm_compute in E. discriminate.
    + simpl in Hne. lia.
    + rewrite Z.mod_small in E by lia. lia.
Qed.

(** Every one-character text passes the test of the source: in [size_t],
    [1 - 2] is [npos], which is what [rfind] returns when it finds nothing. *)
Lemma is_ticker_one_char (c : ascii) : is_ticker (String c "") = true.
Proof.
  unfold is_ticker, rfind. cbn [rfind_from].
  replace (String.prefix ticker_mark "") with false by reflexivity.
  replace (String.prefix ticker_mark (String c "")) with false.
  - reflexivity.
  - unfold ticker_mark. cbn [String.prefix]. destruct (ascii_dec " " c); reflexivity.
Qed.

(** ** Quiet messages *)

(** C7. A message of severity Quiet always passes the filter, and the text
    [make_msg_to_display] renders for it is the raw message text: no
    thread, severity or source prefix, no separator, no line break.  When the
    loop is not ticking and the text is not a ticker text, what the loop
    writes for the message is that text and nothing else. *)
Theorem C7_quiet_rendered_verbatim (s : Impl) (m : Message_Parms) :
  severity m = VERBOSITY_QUIET ->
  (make_msg_to_display s m).1.2 = msg m
  /\ (make_msg_to_display s m).2 = true
  /\ (forall l : Loop_Locals,
        action m = ACTION_DISPLAY_MSG -> tick_count l = 0 -> is_ticker (msg m) = false ->
        (loop_body s l m).2 = msg m).
Proof.
  intros Hq. rewrite make_msg_to_display_eq. cbn [fst snd].
  assert (display_text (message_source_name_map s) m = msg m) as Ht.
  { unfold display_text. rewrite Hq. reflexivity. }
  assert (passes s m = true) as Hp.
  { unfold passes. rewrite Hq, !level_le_quiet. reflexivity. }
  split; [exact Ht|]. split; [exact Hp|].
  intros l Ha Ht0 Hn. unfold loop_body. rewrite Ha, make_msg_to_display_eq.
  fold (passes s m). rewrite Hp, Ht.
  unfold display. rewrite Hn. unfold display_normal. cbn [fst snd tick_count set_msg_to_display
    prev_severity msg_to_display].
  rewrite Ht0, Hq. cbn. rewrite andb_false_r. reflexivity.
Qed.

(** A Quiet message handed to a freshly constructed processor. *)
Lemma C7_quiet_rendered_verbatim_witness :
  let m := mkMessage_Parms ACTION_DISPLAY_MSG 7 0 VERBOSITY_QUIET "raw output" in
  severity m = VERBOSITY_QUIET
  /\ (make_msg_to_display (Impl_init VERBOSITY_MINOR_STEPS 2) m).1.2 = "raw output".
Proof.
  split; [reflexivity|].
  apply (C7_quiet_rendered_verbatim (Impl_init VERBOSITY_MINOR_STEPS 2)
           (mkMessage_Parms ACTION_DISPLAY_MSG 7 0 VERBOSITY_QUIET "raw output")).
  reflexivity.
Defined.

(** ** The ticker test on short texts *)

(** C2, the code on one-character texts.  A text of exactly one character
    does not end with the sentinel, yet the test of the source holds for it:
    the text is rendered without line break and the loop treats it as a
    ticker (here: the text "x" at severity Errors from source 0, thread 7, to
    a loop that is not ticking gets the first rotation glyph appended). *)
Theorem C2_one_char_text_is_ticker :
  (forall c : ascii, is_ticker (String c "") = true /\ ~ ends_with_mark (String c ""))
  /\ (let m := mkMessage_Parms ACTION_DISPLAY_MSG 7 0 VERBOSITY_ERRORS "x" in
      let s := Impl_init VERBOSITY_MINOR_STEPS 2 in
      (make_msg_to_display s m).1.2 = "[ 7] Error:  Message_Processor - x"
      /\ (loop_body s loop_init m).2
         = "[ 7] Error:  Message_Processor - x" +:+ tick_string 0
      /\ tick_count (loop_body s loop_init m).1.2 = 1).
Proof.
  split.
  - intros c. split; [apply is_ticker_one_char|].
    intros H. apply ends_with_mark_length in H. simpl in H. lia.
  - vm_compute. repeat split; reflexivity.
Qed.

(** ** Sources that were never registered *)

Lemma insert_missing_changes (m : gmap Z Verbosity_Level) (k : Z) (v : Verbosity_Level) :
  m !! k = None -> <[k := v]> m <> m.
Proof.
  intros Hk E. assert (<[k := v]> m !! k = m !! k) as E' by (rewrite E; reflexivity).
  rewrite lookup_insert_eq, Hk in E'. discriminate.
Qed.

(** C9 as stated fails: with the global ceiling at Quiet, an Errors message
    for the unregistered source 7 is dropped by the first operand of the [&&]
    in [process_msg]; the map is not subscripted and gains no entry. *)
Lemma C9_drop_without_lookup :
  ~ (forall (s : Impl) (self i : Z) (sev : Verbosity_Level) (str : string),
       message_source_verbosity_map s !! i = None ->
       message_source_verbosity_map (process_msg self i sev str s) !! i
       = Some VERBOSITY_QUIET).
Proof.
  intros H.
  specialize (H (Impl_init VERBOSITY_QUIET 2) 5 7 VERBOSITY_ERRORS "m" eq_refl).
  vm_compute in H. discriminate.
Qed.

(** C9, amended.  For a source id without an entry in the verbosity map:
    [process_msg] subscripts the map, and thereby inserts an entry at Quiet,
    exactly when the severity passes the global ceiling (otherwise the state
    is left as it is); on that path the map is changed even when the message
    is dropped; the message is enqueued exactly when its severity is Quiet;
    and [make_msg_to_display] always inserts the Quiet entry and lets exactly
    the Quiet severities pass its per-source test. *)
Theorem C9_unregistered_source (s : Impl) (self i : Z) (sev : Verbosity_Level) (str : string) :
  message_source_verbosity_map s !! i = None ->
  let s' := process_msg self i sev str s in
  (level_le sev (overall_verbosity s) = true ->
     message_source_verbosity_map s' = <[i := VERBOSITY_QUIET]> (message_source_verbosity_map s)
     /\ message_source_verbosity_map s' <> message_source_verbosity_map s)
  /\ (level_le sev (overall_verbosity s) = false -> s' = s)
  /\ message_queue s'
     = (if level_eqb sev VERBOSITY_QUIET
        then push (mkMessage_Parms ACTION_DISPLAY_MSG self i sev str) (message_queue s)
        else message_queue s)
  /\ (forall m : Message_Parms, src m = i ->
        message_source_verbosity_map (make_msg_to_display s m).1.1
        = <[i := VERBOSITY_QUIET]> (message_source_verbosity_map s)
        /\ (make_msg_to_display s m).2
           = level_eqb (severity m) VERBOSITY_QUIET && level_le (severity m) (overall_verbosity s)).
Proof.
  intros Hi s'. subst s'. unfold process_msg, subscript. rewrite Hi.
  rewrite level_le_default_is_quiet.
  split; [|split; [|split]].
  - intros ->. split.
    + destruct (level_eqb sev VERBOSITY_QUIET); reflexivity.
    + destruct (level_eqb sev VERBOSITY_QUIET); cbn;
        apply insert_missing_changes; assumption.
  - intros ->. reflexivity.
  - destruct (level_eqb sev VERBOSITY_QUIET) eqn:E.
    + apply level_eqb_eq in E. subst sev. rewrite level_le_quiet. reflexivity.
    + destruct (level_le sev (overall_verbosity s)); reflexivity.
  - intros m Hm. rewrite make_msg_to_display_eq. cbn [fst snd]. rewrite Hm. split.
    + rewrite (subscript_map_missing _ _ Hi). reflexivity.
    + unfold ceiling_of. rewrite Hi. cbn [default].
      rewrite level_le_default_is_quiet. reflexivity.
Qed.

(** An Errors message and a Quiet render for the unregistered source 7. *)
Lemma C9_unregistered_source_witness :
  let s := Impl_init VERBOSITY_MINOR_STEPS 2 in
  message_source_verbosity_map s !! 7 = None
  /\ message_queue (process_msg 5 7 VERBOSITY_ERRORS "m" s) = [].
Proof.
  split; [reflexivity|].
  exact (proj1 (proj2 (proj2
    (C9_unregistered_source (Impl_init VERBOSITY_MINOR_STEPS 2) 5 7 VERBOSITY_ERRORS "m"
       eq_refl)))).
Defined.

(** ** The singleton *)

(** C4. A constructor call made while the global holds an instance throws
    the "already initialized" error, writes nothing and leaves the global as
    it was; the accessor throws the "never initialized" error while the
    global is null; and after a constructor call that returned normally the
    accessor returns the address of the constructed object. *)
Theorem C4_singleton_errors :
  (forall (this self : Z) (v : Verbosity_Level) (thread : option Z) (singleton : Z),
      singleton <> 0 ->
      Message_Processor_ctor this self v thread singleton
      = mkConstruction singleton "" (inl already_initialized))
  /\ get_message_processor 0 = inl never_initialized
  /\ (forall (this self : Z) (v : Verbosity_Level) (thread : option Z) (singleton : Z)
            (st : System),
        this <> 0 ->
        outcome (Message_Processor_ctor this self v thread singleton) = inr st ->
        get_message_processor
          (singleton_after (Message_Processor_ctor this self v thread singleton))
        = inr this).
Proof.
  split; [|split].
  - intros this self v thread singleton Hs. unfold Message_Processor_ctor.
    apply Z.eqb_neq in Hs. rewrite Hs. reflexivity.
  - reflexivity.
  - intros this self v thread singleton st Hthis. unfold Message_Processor_ctor.
    destruct (singleton =? 0) eqn:E; cbn [negb]; [|discriminate].
    destruct (Impl_ctor v thread) as [out [e|s]]; cbn [outcome singleton_after];
      [discriminate|].
    intros _. unfold get_message_processor. apply Z.eqb_neq in Hthis. rewrite Hthis.
    reflexivity.
Qed.

(** A second construction at address 8192 while the object at 4096 is the
    singleton, and the accessor after the first construction. *)
Lemma C4_singleton_errors_witness :
  outcome (Message_Processor_ctor 8192 1 VERBOSITY_MINOR_STEPS (Some 3) 4096)
  = inl already_initialized
  /\ get_message_processor
       (singleton_after (Message_Processor_ctor 4096 1 VERBOSITY_MINOR_STEPS (Some 2) 0))
     = inr 4096.
Proof.
  split.
  - rewrite (proj1 C4_singleton_errors 8192 1 VERBOSITY_MINOR_STEPS (Some 3) 4096);
      [reflexivity | lia].
  - eapply (proj2 (proj2 C4_singleton_errors)); [lia | reflexivity].
Defined.




(** ** Leaving the loop *)

(** C10. When the consumer pops a Kill message it sets [we_are_dead], the
    loop ends and the thread returns; on the way out it renders one more
    message, "Impl::run - exit" at MinorSteps for source 0 with its own
    thread id, and writes it (followed by [std::endl]) exactly when
    MinorSteps is within the current ceiling of source 0 and the current
    global ceiling, and nothing otherwise.  With source 0 named
    "Message_Processor" the text is the line shown.  So something can be
    written after the Kill message was handled. *)
Theorem C10_exit_diagnostic (st : System) (l : Loop_Locals) (m : Message_Parms)
    (q : list Message_Parms) :
  consumer st = Looping l ->
  message_queue (impl st) = m :: q ->
  action m = ACTION_KILL ->
  message_processor_src_id (impl st) = 0 ->
  let exit_msg := mkMessage_Parms ACTION_DISPLAY_MSG (impl_thread (impl st)) 0
                    VERBOSITY_MINOR_STEPS "Impl::run - exit" in
  let out := if passes (impl st) exit_msg
             then display_text (message_source_name_map (impl st)) exit_msg +:+ endl
             else "" in
  exists st' : System,
    loop_iteration st = Some (st', out)
    /\ we_are_dead (impl st') = true
    /\ consumer st' = Returned
    /\ message_queue (impl st') = q
    /\ (message_source_name_map (impl st) !! 0 = Some "Message_Processor" ->
        display_text (message_source_name_map (impl st)) exit_msg
        = "[" +:+ setw2 (dec (impl_thread (impl st)))
              +:+ "] Info:   Message_Processor - Impl::run - exit" +:+ endl)
    /\ (passes (impl st) exit_msg = true -> out <> "").
Proof.
  intros Hc Hq Ha Hid exit_msg out.
  unfold loop_iteration. rewrite Hc, Hq. cbn [pop].
  unfold loop_body. rewrite Ha. cbn [we_are_dead set_we_are_dead].
  unfold loop_exit. rewrite make_msg_to_display_eq.
  cbn [message_processor_src_id impl_thread message_source_name_map
       message_source_verbosity_map overall_verbosity
       set_we_are_dead set_is_processing set_message_queue set_verbosity_map].
  rewrite Hid. fold exit_msg. fold (passes (impl st) exit_msg).
  eexists. split; [rewrite append_nil_l; reflexivity|].
  cbn [impl consumer we_are_dead message_queue set_verbosity_map].
  repeat (split; [reflexivity|]). split.
  - intros Hn. unfold display_text, msg_src_str.
    cbn [severity src msg tid exit_msg]. rewrite Hn.
    replace (is_ticker "Impl::run - exit") with false by reflexivity.
    replace (String.eqb (substr0 2 "Impl::run - exit") "::") with false by reflexivity.
    replace (level_eqb VERBOSITY_MINOR_STEPS VERBOSITY_QUIET) with false by reflexivity.
    cbn [msg_prefixes]. rewrite !append_assoc. reflexivity.
  - intros Hp. subst out. rewrite Hp. intros E.
    apply (f_equal String.length) in E. rewrite length_append in E.
    unfold endl in E. simpl in E. lia.
Qed.

(** The Kill message pushed to a freshly constructed processor whose
    consumer has thread id 2. *)
Lemma C10_exit_diagnostic_witness :
  let st := mkSystem (set_message_queue [mkMessage_Parms ACTION_KILL 1 0 VERBOSITY_QUIET ""]
                        (Impl_init VERBOSITY_MINOR_STEPS 2))
                     (Looping loop_init) in
  exists st' : System,
    loop_iteration st
    = Some (st', "[ 2] Info:   Message_Processor - Impl::run - exit" +:+ endl +:+ endl)
    /\ we_are_dead (impl st') = true.
Proof.
  intros st.
  destruct (C10_exit_diagnostic st loop_init
              (mkMessage_Parms ACTION_KILL 1 0 VERBOSITY_QUIET "") []
              eq_refl eq_refl eq_refl eq_refl) as (st' & H1 & H2 & _).
  exists st'. split; [exact H1 | exact H2].
Defined.

(** ** Ticker glyphs *)

Lemma to_int_small (z : Z) : - 2 ^ 31 <= z < 2 ^ 31 -> to_int z = z.
Proof.
  intros H. unfold to_int, int_bits.
  replace (2 ^ (32 - 1)) with 2147483648 by reflexivity.
  replace (2 ^ 32) with 4294967296 by reflexivity.
  replace (2 ^ 31) with 2147483648 in H by reflexivity.
  rewrite Z.mod_small; lia.
Qed.

Lemma incr_small (n : Z) : 0 <= n < INT_MAX -> incr n = n + 1.
Proof.
  unfold INT_MAX, int_bits. replace (2 ^ (32 - 1) - 1) with 2147483647 by reflexivity.
  intros H. unfold incr. apply to_int_small.
  replace (2 ^ 31) with 2147483648 by reflexivity. lia.
Qed.

Lemma land3_mod (n : Z) : Z.land n 3 = n mod 4.
Proof. change 3 with (Z.ones 2). rewrite Z.land_ones by lia. reflexivity. Qed.

Lemma to_int_mod4 (z : Z) : to_int z mod 4 = z mod 4.
Proof.
  unfold to_int, int_bits.
  replace (2 ^ (32 - 1)) with 2147483648 by reflexivity.
  replace (2 ^ 32) with 4294967296 by reflexivity.
  rewrite (Z.mod_eq (z + 2147483648) 4294967296) by lia.
  replace (z + 2147483648 - 4294967296 * ((z + 2147483648) / 4294967296) - 2147483648)
    with (z + (- 1073741824 * ((z + 2147483648) / 4294967296)) * 4) by lia.
  apply Z_mod_plus_full.
Qed.

(** The glyph index advances by one around the rotation, also at the wrap. *)
Lemma land3_incr (n : Z) : Z.land (incr n) 3 = (Z.land n 3 + 1) mod 4.
Proof.
  rewrite !land3_mod. unfold incr. rewrite to_int_mod4.
  rewrite Zplus_mod_idemp_l. reflexivity.
Qed.

Lemma land3_cases (n : Z) :
  Z.land n 3 = 0 \/ Z.land n 3 = 1 \/ Z.land n 3 = 2 \/ Z.land n 3 = 3.
Proof. rewrite land3_mod. pose proof (Z.mod_pos_bound n 4). lia. Qed.

Lemma tick_string_glyph (n : Z) : is_tick_glyph (tick_string (Z.land n 3)).
Proof.
  destruct (land3_cases n) as [E | [E | [E | E]]]; rewrite E; eexists;
    (split; [reflexivity | tauto]).
Qed.

Lemma mod_tick_string_glyph (n : Z) : is_mod_tick_glyph (mod_tick_string (Z.land n 3)).
Proof.
  destruct (land3_cases n) as [E | [E | [E | E]]]; rewrite E; eexists;
    (split; [reflexivity | tauto]).
Qed.

Lemma glyph_rotations_disjoint (g : string) : is_tick_glyph g -> ~ is_mod_tick_glyph g.
Proof.
  intros (c & -> & Hc) (c' & E & Hc'). inversion E; subst c'.
  destruct Hc as [-> | [-> | [-> | ->]]]; destruct Hc' as [H | [H | [H | H]]];
    vm_compute in H; discriminate.
Qed.

(** What the loop does with a displayed message, in terms of [display]. *)
Lemma loop_body_displayed (s : Impl) (l : Loop_Locals) (m : Message_Parms) :
  action m = ACTION_DISPLAY_MSG -> passes s m = true ->
  loop_body s l m
  = (set_verbosity_map (subscript (message_source_verbosity_map s) (src m)).1 s,
     (display m (set_msg_to_display (display_text (message_source_name_map s) m) l)).1,
     (display m (set_msg_to_display (display_text (message_source_name_map s) m) l)).2).
Proof.
  intros Ha Hp. unfold loop_body. rewrite Ha, make_msg_to_display_eq.
  fold (passes s m). rewrite Hp.
  destruct (display m _); reflexivity.
Qed.

(** What the loop does with a message that fails the filter. *)
Lemma loop_body_dropped (s : Impl) (l : Loop_Locals) (m : Message_Parms) :
  action m = ACTION_DISPLAY_MSG -> passes s m = false ->
  loop_body s l m
  = (set_verbosity_map (subscript (message_source_verbosity_map s) (src m)).1 s,
     set_msg_to_display (display_text (message_source_name_map s) m) l,
     "").
Proof.
  intros Ha Hp. unfold loop_body. rewrite Ha, make_msg_to_display_eq.
  fold (passes s m). rewrite Hp. reflexivity.
Qed.

(** C6. While the loop is ticking, a displayed ticker message whose source
    id or thread id differs from the remembered one makes the loop write one
    glyph of the second rotation (a backspace and one of ! X = V, none of
    which belongs to the normal rotation), and nothing else: no line break,
    no message text.  The tick count is incremented, so the glyph index moves
    one place around the rotation, and the remembered source id, thread id
    and text stay as they were. *)
Theorem C6_interrupting_ticker (s : Impl) (l : Loop_Locals) (m : Message_Parms) :
  action m = ACTION_DISPLAY_MSG ->
  passes s m = true ->
  is_ticker (msg m) = true ->
  tick_count l <> 0 ->
  src m <> prev_src l \/ tid m <> to_ulong (prev_tid l) ->
  let l' := (loop_body s l m).1.2 in
  let out := (loop_body s l m).2 in
  out = mod_tick_string (Z.land (tick_count l) 3)
  /\ is_mod_tick_glyph out
  /\ ~ is_tick_glyph out
  /\ tick_count l' = incr (tick_count l)
  /\ (0 <= tick_count l < INT_MAX -> tick_count l' = tick_count l + 1)
  /\ Z.land (tick_count l') 3 = (Z.land (tick_count l) 3 + 1) mod 4
  /\ prev_src l' = prev_src l
  /\ prev_tid l' = prev_tid l
  /\ prev_msg l' = prev_msg l.
Proof.
  intros Ha Hp Ht Hn Hd l' out. subst l' out.
  rewrite (loop_body_displayed s l m Ha Hp). cbn [fst snd].
  unfold display. rewrite Ht. unfold display_ticker.
  cbn [tick_count set_msg_to_display prev_msg prev_tid prev_src prev_severity msg_to_display].
  apply Z.eqb_neq in Hn. rewrite Hn. cbn [negb].
  assert (same_source m (set_msg_to_display (display_text (message_source_name_map s) m) l)
          = false) as Hs.
  { unfold same_source. cbn [set_msg_to_display prev_src prev_tid].
    destruct Hd as [Hd | Hd]; apply Z.eqb_neq in Hd; rewrite Hd;
      [reflexivity | apply andb_false_r]. }
  rewrite Hs. cbn [fst snd tick_count prev_src prev_tid prev_msg].
  split; [reflexivity|].
  split; [apply mod_tick_string_glyph|].
  split; [intros H; exact (glyph_rotations_disjoint _ H (mod_tick_string_glyph _))|].
  split; [reflexivity|].
  split; [apply incr_small|].
  split; [apply land3_incr|].
  repeat split; reflexivity.
Qed.

(** Thread 6 interrupts the ticker of thread 5 at its second tick. *)
Lemma C6_interrupting_ticker_witness :
  let s := Impl_init VERBOSITY_MINOR_STEPS 2 in
  let l := mkLocals 2 "loading ." "" 5 0 VERBOSITY_ERRORS in
  let m := mkMessage_Parms ACTION_DISPLAY_MSG 6 0 VERBOSITY_ERRORS "loading ." in
  (loop_body s l m).2 = String BS "=".
Proof.
  intros s l m.
  refine (proj1 (C6_interrupting_ticker s l m eq_refl eq_refl eq_refl _ _)).
  - discriminate.
  - right. discriminate.
Defined.

(** ** Shutdown *)

Lemma fresh_system_constructed :
  Message_Processor_ctor 4096 1 VERBOSITY_MINOR_STEPS (Some 2) 0
  = mkConstruction 4096 "" (inr fresh_system).
Proof. reflexivity. Qed.

Lemma dtor_pushes_queue (self : Z) (s : Impl) :
  message_queue (dtor_pushes self s)
  = message_queue s ++ [kill_msg self s; kill_act self s].
Proof.
  unfold dtor_pushes, push. cbn [message_queue set_message_queue].
  rewrite <- app_assoc. reflexivity.
Qed.

(** The wait loop sleeps at most once per iteration left, always for the
    same timeout. *)
Lemma dtor_wait_bounded (left : nat) : forall (i : nat) (sched : nat -> nat) (st : System),
  (length (dtor_wait left i sched st).2 <= left)%nat
  /\ Forall (fun t => t = mkTimeval 0 100000) (dtor_wait left i sched st).2.
Proof.
  induction left as [|left IH]; intros i sched st; cbn [dtor_wait].
  - split; [reflexivity | constructor].
  - destruct (we_are_dead (impl st)); [split; [cbn; lia | constructor]|].
    destruct (consumer_runs (sched i) st) as [st1 out1].
    specialize (IH (S i) sched st1).
    destruct (dtor_wait left (S i) sched st1) as [[st2 out2] slept].
    cbn [snd length] in *. destruct IH as [IH1 IH2].
    split; [lia | constructor; [reflexivity | assumption]].
Qed.

(** An iteration on a Display message keeps the loop going. *)
Lemma loop_iteration_display (st : System) (l : Loop_Locals) (m : Message_Parms)
    (q : list Message_Parms) :
  consumer st = Looping l -> message_queue (impl st) = m :: q ->
  action m = ACTION_DISPLAY_MSG -> we_are_dead (impl st) = false ->
  exists (st' : System) (out : string) (l' : Loop_Locals),
    loop_iteration st = Some (st', out)
    /\ consumer st' = Looping l'
    /\ message_queue (impl st') = q
    /\ we_are_dead (impl st') = false.
Proof.
  intros Hc Hq Ha Hd. unfold loop_iteration. rewrite Hc, Hq. cbn [pop].
  set (s1 := set_is_processing true _).
  assert (forall vm, we_are_dead (set_verbosity_map vm s1) = false) as Hd1.
  { intros vm. exact Hd. }
  assert (forall vm, message_queue (set_verbosity_map vm s1) = q) as Hq1.
  { intros vm. reflexivity. }
  destruct (passes s1 m) eqn:Hp.
  - rewrite (loop_body_displayed s1 l m Ha Hp). rewrite Hd1.
    do 3 eexists. split; [reflexivity|]. cbn [impl consumer].
    split; [reflexivity|]. split; [apply Hq1 | apply Hd1].
  - rewrite (loop_body_dropped s1 l m Ha Hp). rewrite Hd1.
    do 3 eexists. split; [reflexivity|]. cbn [impl consumer].
    split; [reflexivity|]. split; [apply Hq1 | apply Hd1].
Qed.

(** An iteration on a Kill message ends the loop. *)
Lemma loop_iteration_kill (st : System) (l : Loop_Locals) (m : Message_Parms)
    (q : list Message_Parms) :
  consumer st = Looping l -> message_queue (impl st) = m :: q ->
  action m = ACTION_KILL ->
  exists (st' : System) (out : string),
    loop_iteration st = Some (st', out)
    /\ consumer st' = Returned
    /\ we_are_dead (impl st') = true.
Proof.
  intros Hc Hq Ha. unfold loop_iteration. rewrite Hc, Hq. cbn [pop].
  unfold loop_body. rewrite Ha. cbn [we_are_dead set_we_are_dead].
  unfold loop_exit. rewrite make_msg_to_display_eq.
  do 2 eexists. split; [reflexivity|]. split; reflexivity.
Qed.

(** First in, first out: the consumer handles a Kill message only after all
    the messages pushed before it, and until then it is alive. *)
Lemma kill_handled_after_earlier (q1 : list Message_Parms) :
  forall (st : System) (l : Loop_Locals) (k : Message_Parms) (q2 : list Message_Parms),
    consumer st = Looping l -> we_are_dead (impl st) = false ->
    message_queue (impl st) = q1 ++ k :: q2 ->
    Forall (fun m => action m = ACTION_DISPLAY_MSG) q1 ->
    action k = ACTION_KILL ->
    (forall n : nat, (n <= length q1)%nat ->
       we_are_dead (impl (consumer_runs n st).1) = false)
    /\ message_queue (impl (consumer_runs (length q1) st).1) = k :: q2
    /\ we_are_dead (impl (consumer_runs (S (length q1)) st).1) = true.
Proof.
  induction q1 as [|m q1 IH]; intros st l k q2 Hc Hd Hq Hall Hk.
  - cbn [app] in Hq. destruct (loop_iteration_kill st l k q2 Hc Hq Hk) as (st' & out & E & _ & Hd').
    split; [|split].
    + intros n Hn. cbn in Hn. replace n with O by lia. exact Hd.
    + exact Hq.
    + cbn [length consumer_runs]. rewrite E. cbn. exact Hd'.
  - inversion Hall as [|? ? Hm Hall']; subst.
    destruct (loop_iteration_display st l m (q1 ++ k :: q2) Hc Hq Hm Hd)
      as (st' & out & l' & E & Hc' & Hq' & Hd').
    destruct (IH st' l' k q2 Hc' Hd' Hq' Hall' Hk) as (IH1 & IH2 & IH3).
    assert (forall n, (consumer_runs (S n) st).1 = (consumer_runs n st').1) as Hrun.
    { intros n. cbn [consumer_runs]. rewrite E.
      destruct (consumer_runs n st'); reflexivity. }
    split; [|split].
    + intros [|n] Hn; [exact Hd|]. rewrite Hrun. apply IH1. cbn in Hn. lia.
    + cbn [length]. rewrite Hrun. exact IH2.
    + cbn [length]. rewrite Hrun. exact IH3.
Qed.

(** C8, the code's timing.  The destructor appends the status message and
    then the Kill message at the tail of the queue; its wait loop sleeps at
    most ten times whatever the consumer does, so it always comes to an end;
    but each [select] is given the timeout [{0, 100000}], which is 100000
    microseconds, and when the consumer makes no progress the destructor of
    a freshly constructed processor sleeps ten times, 1000000 microseconds in
    all. *)
Theorem C8_destructor_sleeps_one_second :
  (forall (self : Z) (s : Impl),
      message_queue (dtor_pushes self s)
      = message_queue s ++ [kill_msg self s; kill_act self s]
      /\ action (kill_msg self s) = ACTION_DISPLAY_MSG
      /\ action (kill_act self s) = ACTION_KILL)
  /\ (forall (self : Z) (sched : nat -> nat) (st : System),
        (length (Impl_dtor self sched st).2 <= 10)%nat
        /\ Forall (fun t => microseconds t = 100000) (Impl_dtor self sched st).2)
  /\ (Impl_dtor 1 (fun _ => O) fresh_system).2 = replicate 10 (mkTimeval 0 100000)
  /\ total_microseconds (Impl_dtor 1 (fun _ => O) fresh_system).2 = 1000000
  /\ we_are_dead (impl (Impl_dtor 1 (fun _ => O) fresh_system).1.1) = false.
Proof.
  split; [|split].
  - intros self s. split; [apply dtor_pushes_queue|]. split; reflexivity.
  - intros self sched st. unfold Impl_dtor.
    destruct (consumer_runs (sched O) (on_impl (dtor_pushes self) st)) as [st0 out0].
    pose proof (dtor_wait_bounded 10 1 sched st0) as [H1 H2].
    destruct (dtor_wait 10 1 sched st0) as [[st1 out1] slept].
    destruct (make_msg_to_display (impl st1) _) as [[s2 text] ok].
    cbn [snd] in *. split; [exact H1|].
    eapply Forall_impl; [exact H2|]. intros t ->. reflexivity.
  - vm_compute. repeat split; reflexivity.
Qed.

(** ** Ticker coalescing *)

(** The render decision only reads the ceilings, and [operator[]] does not
    change what they read. *)
Lemma passes_after_subscript (s : Impl) (k : Z) (m : Message_Parms) :
  passes (set_verbosity_map (subscript (message_source_verbosity_map s) k).1 s) m
  = passes s m.
Proof.
  unfold passes. cbn [message_source_verbosity_map overall_verbosity set_verbosity_map].
  rewrite ceiling_of_subscript. reflexivity.
Qed.

Lemma ticks_length (n : nat) : forall k : Z, length (ticks k n) = n.
Proof. induction n as [|n IH]; intros k; cbn; [reflexivity | now rewrite IH]. Qed.

Lemma ticks_glyphs (n : nat) : forall k : Z, Forall is_tick_glyph (ticks k n).
Proof.
  induction n as [|n IH]; intros k; cbn [ticks]; constructor;
    [apply tick_string_glyph | apply IH].
Qed.

Lemma ticks_lookup (n : nat) : forall (k : Z) (i : nat),
  (i < n)%nat -> ticks k n !! i = Some (tick_string ((k + Z.of_nat i) mod 4)).
Proof.
  induction n as [|n IH]; intros k i Hi; [lia|].
  destruct i as [|i]; cbn [ticks].
  - cbn. rewrite land3_mod, Z.add_0_r. reflexivity.
  - cbn [lookup list_lookup]. change (ticks (k + 1) n !! i = Some (tick_string ((k + Z.of_nat (S i)) mod 4))).
    rewrite IH by lia. do 3 f_equal. lia.
Qed.

(** One iteration of a ticking loop on a displayed ticker message that
    matches the remembered one: a single glyph. *)
Lemma loop_iteration_same_ticker (st : System) (l : Loop_Locals) (m : Message_Parms)
    (q : list Message_Parms) :
  consumer st = Looping l -> we_are_dead (impl st) = false ->
  message_queue (impl st) = m :: q ->
  action m = ACTION_DISPLAY_MSG -> passes (impl st) m = true ->
  is_ticker (msg m) = true -> tick_count l <> 0 -> same_as_remembered m l ->
  exists (st' : System) (l' : Loop_Locals),
    loop_iteration st = Some (st', tick_string (Z.land (tick_count l) 3))
    /\ consumer st' = Looping l'
    /\ tick_count l' = incr (tick_count l)
    /\ prev_src l' = prev_src l /\ prev_tid l' = prev_tid l /\ prev_msg l' = prev_msg l
    /\ prev_severity l' = prev_severity l
    /\ message_queue (impl st') = q
    /\ we_are_dead (impl st') = false
    /\ (forall m' : Message_Parms, passes (impl st') m' = passes (impl st) m').
Proof.
  intros Hc Hd Hq Ha Hp Ht Hn (Hs1 & Hs2 & Hs3).
  unfold loop_iteration. rewrite Hc, Hq. cbn [pop].
  set (s1 := set_is_processing true _).
  assert (passes s1 m = true) as Hp1 by exact Hp.
  rewrite (loop_body_displayed s1 l m Ha Hp1).
  replace (we_are_dead (set_verbosity_map _ s1)) with false by (symmetry; exact Hd).
  unfold display. rewrite Ht. unfold display_ticker, same_source.
  cbn [tick_count set_msg_to_display prev_msg prev_tid prev_src prev_severity msg_to_display].
  apply Z.eqb_neq in Hn. rewrite Hn. cbn [negb].
  rewrite Hs1, Hs2, Hs3, !Z.eqb_refl, String.eqb_refl. cbn [andb negb fst snd].
  do 2 eexists. split; [reflexivity|]. cbn [impl consumer tick_count prev_src prev_tid
    prev_msg prev_severity].
  repeat (split; [reflexivity|]). split; [exact Hd|].
  intros m'. rewrite passes_after_subscript. reflexivity.
Qed.

(** A run of matching ticker messages through a ticking loop. *)
Lemma ticking_run (ms : list Message_Parms) :
  forall (st : System) (l : Loop_Locals) (rest : list Message_Parms),
    consumer st = Looping l -> we_are_dead (impl st) = false ->
    message_queue (impl st) = ms ++ rest ->
    1 <= tick_count l -> tick_count l + Z.of_nat (length ms) <= INT_MAX ->
    Forall (fun m' => action m' = ACTION_DISPLAY_MSG /\ passes (impl st) m' = true
                      /\ is_ticker (msg m') = true /\ same_as_remembered m' l) ms ->
    exists (st' : System) (l' : Loop_Locals),
      consumer_runs (length ms) st = (st', write_all (ticks (tick_count l) (length ms)))
      /\ consumer st' = Looping l'
      /\ tick_count l' = tick_count l + Z.of_nat (length ms)
      /\ prev_src l' = prev_src l /\ prev_tid l' = prev_tid l /\ prev_msg l' = prev_msg l
      /\ message_queue (impl st') = rest.
Proof.
  induction ms as [|m ms IH]; intros st l rest Hc Hd Hq Hk Hmax Hall.
  - exists st, l. cbn. rewrite Z.add_0_r. repeat split; try reflexivity; assumption.
  - inversion Hall as [|? ? (Ha & Hp & Ht & Hs) Hall']; subst.
    cbn [length] in Hmax.
    destruct (loop_iteration_same_ticker st l m (ms ++ rest) Hc Hd Hq Ha Hp Ht
                ltac:(lia) Hs)
      as (st1 & l1 & E & Hc1 & Hk1 & Hs1 & Ht1 & Hm1 & _ & Hq1 & Hd1 & Hp1).
    rewrite incr_small in Hk1 by lia.
    destruct (IH st1 l1 rest Hc1 Hd1 Hq1 ltac:(lia) ltac:(lia)) as
      (st' & l' & E' & Hc' & Hk' & Hs' & Ht' & Hm' & Hq').
    { eapply Forall_impl; [exact Hall'|]. cbn beta.
      intros m' (Ha' & Hp' & Ht'' & Hs1' & Hs2' & Hs3').
      rewrite Hp1. unfold same_as_remembered. rewrite Hs1, Ht1, Hm1. tauto. }
    exists st', l'. cbn [length consumer_runs ticks write_all foldr].
    rewrite E, E', Hk1. split; [reflexivity|].
    split; [exact Hc'|]. split; [lia|].
    split; [congruence|]. split; [congruence|]. split; [congruence | exact Hq'].
Qed.

(** Ticker coalescing in terms of what the loop remembers.  Starting from a
    loop that is not ticking, let a displayed ticker message [m] be followed
    in the queue by further displayed messages [ms] with the source id,
    thread id and text that the loop remembers for [m] (fewer than
    [INT_MAX] of them).  Then what the consumer writes for all of them is
    the rendered text of [m] once, closed by the first glyph of the
    rotation, and after it one glyph per message of [ms] and nothing else. *)
Lemma ticker_coalescing_remembered (st : System) (l : Loop_Locals) (m : Message_Parms)
    (ms rest : list Message_Parms) :
  consumer st = Looping l -> we_are_dead (impl st) = false ->
  tick_count l = 0 ->
  message_queue (impl st) = m :: ms ++ rest ->
  action m = ACTION_DISPLAY_MSG -> passes (impl st) m = true -> is_ticker (msg m) = true ->
  ms <> [] ->
  Forall (fun m' => action m' = ACTION_DISPLAY_MSG /\ passes (impl st) m' = true
                    /\ src m' = src m /\ tid m' = to_ulong (to_int (tid m))
                    /\ msg m' = msg m) ms ->
  Z.of_nat (length ms) < INT_MAX ->
  (consumer_runs (S (length ms)) st).2
  = display_text (message_source_name_map (impl st)) m +:+ tick_string 0
      +:+ write_all (ticks 1 (length ms))
  /\ length (ticks 1 (length ms)) = length ms
  /\ Forall is_tick_glyph (ticks 1 (length ms))
  /\ (forall i : nat, (i < length ms)%nat ->
        ticks 1 (length ms) !! i = Some (tick_string ((1 + Z.of_nat i) mod 4)))
  /\ message_queue (impl (consumer_runs (S (length ms)) st).1) = rest.
Proof.
  intros Hc Hd Ht0 Hq Ha Hp Ht _ Hall Hmax.
  split; [|split; [apply ticks_length | split; [apply ticks_glyphs | split;
    [intros i Hi; apply ticks_lookup; exact Hi|]]]].
  all: cbn [consumer_runs]; unfold loop_iteration; rewrite Hc, Hq; cbn [pop].
  all: set (s1 := set_is_processing true _).
  all: assert (passes s1 m = true) as Hp1 by exact Hp.
  all: rewrite (loop_body_displayed s1 l m Ha Hp1).
  all: replace (we_are_dead (set_verbosity_map _ s1)) with false by (symmetry; exact Hd).
  all: unfold display; rewrite Ht; unfold display_ticker.
  all: cbn [tick_count set_msg_to_display prev_msg prev_tid prev_src prev_severity
            msg_to_display]; rewrite Ht0; cbn [Z.eqb negb fst snd].
  all: match goal with
       | |- context [consumer_runs _ (mkSystem ?s (Looping ?l1))] =>
           destruct (ticking_run ms (mkSystem s (Looping l1)) l1 rest eq_refl Hd
                       eq_refl ltac:(cbn; lia) ltac:(cbn [tick_count]; lia))
             as (st' & l' & E & _ & _ & _ & _ & _ & Hq')
       end.
  1, 3: eapply Forall_impl; [exact Hall|]; cbn beta;
        intros m' (Ha' & Hp' & Hs1 & Hs2 & Hs3);
        (split; [exact Ha'|]); (split; [cbn [impl]; rewrite passes_after_subscript; exact Hp'|]);
        (split; [rewrite Hs3; exact Ht|]); unfold same_as_remembered;
        cbn [prev_src prev_tid prev_msg]; tauto.
  - rewrite E. cbn [snd tick_count]. rewrite append_assoc. reflexivity.
  - rewrite E. cbn [fst]. exact Hq'.
Qed.

(** X20. Ticker coalescing for thread ids that an [int] can hold (below
    2^31).  Starting from a loop that is not ticking, let a displayed ticker
    message [m] from such a thread be followed in the queue by further
    displayed messages [ms] with the same source id, thread id and text
    (fewer than [INT_MAX] of them).  Then the consumer writes the rendered
    text of [m] once, closed by the first glyph of the rotation, and after
    it one glyph per message of [ms] and nothing else: each glyph is a
    backspace and one symbol of | / - \, the glyph of the [i]-th further
    message being number [(i + 1) mod 4] of the rotation; no line break is
    written and the text is not written again. *)
Theorem ticker_coalescing_narrow_thread_id (st : System) (l : Loop_Locals)
    (m : Message_Parms) (ms rest : list Message_Parms) :
  0 <= tid m < 2 ^ 31 ->
  consumer st = Looping l -> we_are_dead (impl st) = false ->
  tick_count l = 0 ->
  message_queue (impl st) = m :: ms ++ rest ->
  action m = ACTION_DISPLAY_MSG -> passes (impl st) m = true -> is_ticker (msg m) = true ->
  Forall (fun m' => action m' = ACTION_DISPLAY_MSG /\ passes (impl st) m' = true
                    /\ src m' = src m /\ tid m' = tid m /\ msg m' = msg m) ms ->
  Z.of_nat (length ms) < INT_MAX ->
  (consumer_runs (S (length ms)) st).2
  = display_text (message_source_name_map (impl st)) m +:+ tick_string 0
      +:+ write_all (ticks 1 (length ms))
  /\ length (ticks 1 (length ms)) = length ms
  /\ Forall is_tick_glyph (ticks 1 (length ms))
  /\ (forall i : nat, (i < length ms)%nat ->
        ticks 1 (length ms) !! i = Some (tick_string ((1 + Z.of_nat i) mod 4)))
  /\ message_queue (impl (consumer_runs (S (length ms)) st).1) = rest.
Proof.
  intros Htid Hc Hd Ht0 Hq Ha Hp Ht Hall Hmax.
  assert (to_ulong (to_int (tid m)) = tid m) as Hfit.
  { rewrite to_int_small by lia. unfold to_ulong, ulong_bits.
    apply Z.mod_small. replace (2 ^ 31) with 2147483648 in Htid by reflexivity.
    replace (2 ^ 64) with 18446744073709551616 by reflexivity. lia. }
  destruct ms as [|m1 ms].
  - cbn [length app] in *.
    cbn [consumer_runs]. unfold loop_iteration. rewrite Hc, Hq. cbn [pop].
    set (s1 := set_is_processing true _).
    assert (passes s1 m = true) as Hp1 by exact Hp.
    rewrite (loop_body_displayed s1 l m Ha Hp1).
    replace (we_are_dead (set_verbosity_map _ s1)) with false by (symmetry; exact Hd).
    unfold display. rewrite Ht. unfold display_ticker.
    cbn [tick_count set_msg_to_display prev_msg prev_tid prev_src prev_severity
         msg_to_display]. rewrite Ht0. cbn [Z.eqb negb fst snd ticks write_all foldr].
    rewrite append_empty_r.
    split; [reflexivity|]. split; [reflexivity|]. split; [constructor|].
    split; [intros i Hi; lia | reflexivity].
  - apply (ticker_coalescing_remembered st l m (m1 :: ms) rest Hc Hd Ht0 Hq Ha Hp Ht);
      [discriminate | | exact Hmax].
    eapply Forall_impl; [exact Hall|]. cbn beta.
    intros m' (Ha' & Hp' & Hs1 & Hs2 & Hs3). rewrite Hfit. tauto.
Qed.

(** Thread 5 reports "loading ." three times through source 0. *)
Lemma ticker_coalescing_narrow_thread_id_witness :
  let m := mkMessage_Parms ACTION_DISPLAY_MSG 5 0 VERBOSITY_ERRORS "loading ." in
  let st := mkSystem (set_message_queue [m; m; m] (Impl_init VERBOSITY_MINOR_STEPS 2))
              (Looping loop_init) in
  (consumer_runs 3 st).2
  = "[ 5] Error:  Message_Processor - loading ." +:+ String BS "|"
      +:+ String BS "/" +:+ String BS "-".
Proof.
  intros m st.
  refine (proj1 (ticker_coalescing_narrow_thread_id st loop_init m [m; m] [] _ eq_refl
                   eq_refl eq_refl eq_refl eq_refl eq_refl eq_refl _ _)).
  - vm_compute. split; [discriminate | reflexivity].
  - repeat constructor.
  - reflexivity.
Defined.

(** C5, the code for a thread id that an [int] cannot hold.  Thread
    140737345918720 sends the ticker message "loading ." three times
    through source 0 to a loop that is not ticking.  All three carry the
    same source id, thread id and text, yet only the first is taken for the
    owner of the ticker: the thread id is remembered in the [int]
    [prev_tid], the comparison with the remembered value fails, and the
    second and third message are answered with glyphs of the rotation for
    interrupting sources (X and =) instead of the glyphs / and - of the
    normal rotation. *)
Theorem C5_own_ticker_not_coalesced :
  let m := mkMessage_Parms ACTION_DISPLAY_MSG 140737345918720 0 VERBOSITY_ERRORS
             "loading ." in
  let st := mkSystem (set_message_queue [m; m; m] (Impl_init VERBOSITY_MINOR_STEPS 2))
              (Looping loop_init) in
  let line := "[140737345918720] Error:  Message_Processor - loading ." in
  (consumer_runs 3 st).2
  = line +:+ tick_string 0 +:+ mod_tick_string 1 +:+ mod_tick_string 2
  /\ (consumer_runs 3 st).2
     = line +:+ String BS "|" +:+ String BS "X" +:+ String BS "="
  /\ (consumer_runs 3 st).2
     <> line +:+ tick_string 0 +:+ tick_string 1 +:+ tick_string 2.
Proof.
  vm_compute. split; [reflexivity|]. split; [reflexivity | discriminate].
Qed.

(** The thread id is remembered in an [int].  A [pthread_t] that does not
    fit, such as 140737345918720, is not equal to what is remembered for it,
    so the comparison of thread ids in [same_source] succeeds for a thread's
    own next message only when an [int] can hold its id. *)
Remark remembered_tid_fits (t : Z) :
  0 <= t < 2 ^ 31 -> to_ulong (to_int t) = t.
Proof.
  intros H. rewrite to_int_small by lia. unfold to_ulong, ulong_bits.
  apply Z.mod_small. replace (2 ^ 31) with 2147483648 in H by reflexivity.
  replace (2 ^ 64) with 18446744073709551616 by reflexivity. lia.
Qed.

Remark remembered_tid_truncated :
  to_ulong (to_int 140737345918720) <> 140737345918720.
Proof. vm_compute. discriminate. Qed.

(** ** Filtering at enqueue time and at render time *)

Lemma similar_refl (s : Impl) : similar s s.
Proof.
  exists (message_source_verbosity_map s). split; [destruct s; reflexivity|].
  intros j. reflexivity.
Qed.

Lemma same_ceilings_subscript (a b : gmap Z Verbosity_Level) (k : Z) :
  same_ceilings a b -> same_ceilings (subscript a k).1 (subscript b k).1.
Proof. intros H j. rewrite !ceiling_of_subscript. apply H. Qed.

Lemma same_ceilings_insert (a b : gmap Z Verbosity_Level) (k : Z) (v : Verbosity_Level) :
  same_ceilings a b -> same_ceilings (<[k := v]> a) (<[k := v]> b).
Proof.
  intros H j. unfold ceiling_of. destruct (decide (k = j)) as [->|Hne].
  - rewrite !lookup_insert_eq. reflexivity.
  - rewrite !lookup_insert_ne by assumption. apply H.
Qed.

Lemma passes_similar (s t : Impl) (m : Message_Parms) :
  similar s t -> passes t m = passes s m.
Proof.
  intros (vm & -> & Hvm). unfold passes.
  cbn [message_source_verbosity_map overall_verbosity set_verbosity_map].
  rewrite Hvm. reflexivity.
Qed.

Lemma similar_after_subscript (s t : Impl) (k : Z) :
  similar s t ->
  similar (set_verbosity_map (subscript (message_source_verbosity_map s) k).1 s)
          (set_verbosity_map (subscript (message_source_verbosity_map t) k).1 t).
Proof.
  intros (vm & -> & Hvm).
  exists (subscript vm k).1. split; [reflexivity|].
  apply same_ceilings_subscript, Hvm.
Qed.

Lemma loop_body_similar (s t : Impl) (l : Loop_Locals) (m : Message_Parms) :
  similar s t ->
  similar (loop_body s l m).1.1 (loop_body t l m).1.1
  /\ (loop_body t l m).1.2 = (loop_body s l m).1.2
  /\ (loop_body t l m).2 = (loop_body s l m).2.
Proof.
  intros H. destruct (action m) eqn:Ha.
  - unfold loop_body. rewrite Ha. cbn [fst snd].
    split; [|split; reflexivity].
    destruct H as (vm & -> & Hvm). exists vm. split; [reflexivity | exact Hvm].
  - pose proof (passes_similar s t m H) as Hp.
    assert (message_source_name_map t = message_source_name_map s) as Hn.
    { destruct H as (vm & -> & _). reflexivity. }
    destruct (passes s m) eqn:Hs.
    + rewrite (loop_body_displayed s l m Ha Hs), (loop_body_displayed t l m Ha Hp).
      cbn [fst snd]. rewrite Hn.
      split; [apply similar_after_subscript, H | split; reflexivity].
    + rewrite (loop_body_dropped s l m Ha Hs), (loop_body_dropped t l m Ha Hp).
      cbn [fst snd]. rewrite Hn.
      split; [apply similar_after_subscript, H | split; reflexivity].
Qed.

Lemma loop_exit_similar (s t : Impl) :
  similar s t ->
  similar (loop_exit s).1 (loop_exit t).1 /\ (loop_exit t).2 = (loop_exit s).2.
Proof.
  intros H. unfold loop_exit. rewrite !make_msg_to_display_eq. cbn [fst snd].
  destruct H as (vm & -> & Hvm).
  cbn [message_source_verbosity_map overall_verbosity set_verbosity_map
       set_is_processing impl_thread message_processor_src_id message_source_name_map src
       severity].
  split.
  - exists (subscript vm (message_processor_src_id s)).1. split; [reflexivity|].
    apply same_ceilings_subscript, Hvm.
  - rewrite Hvm. reflexivity.
Qed.

Lemma loop_iteration_similar (st st' : System) :
  similar_sys st st' ->
  match loop_iteration st, loop_iteration st' with
  | Some (a, out), Some (b, out') => similar_sys a b /\ out' = out
  | None, None => True
  | _, _ => False
  end.
Proof.
  intros [H Hc]. unfold loop_iteration. rewrite Hc.
  destruct (consumer st) as [l|]; [|exact I].
  assert (message_queue (impl st') = message_queue (impl st)) as Hq.
  { destruct H as (vm & -> & _). reflexivity. }
  rewrite Hq. destruct (message_queue (impl st)) as [|m q]; cbn [pop]; [exact I|].
  set (s1 := set_is_processing true (set_message_queue q (set_is_processing false (impl st)))).
  set (t1 := set_is_processing true (set_message_queue q (set_is_processing false (impl st')))).
  assert (similar s1 t1) as H1.
  { destruct H as (vm & E & Hvm). exists vm. subst s1 t1. rewrite E.
    split; [reflexivity | exact Hvm]. }
  destruct (loop_body_similar s1 t1 l m H1) as (Hb1 & Hb2 & Hb3).
  destruct (loop_body s1 l m) as [[s2 l2] out2].
  destruct (loop_body t1 l m) as [[t2 l2'] out2'].
  cbn [fst snd] in Hb1, Hb2, Hb3. subst l2' out2'.
  assert (we_are_dead t2 = we_are_dead s2) as Hd.
  { destruct Hb1 as (vm & -> & _). reflexivity. }
  rewrite Hd. destruct (we_are_dead s2).
  - destruct (loop_exit_similar s2 t2 Hb1) as (He1 & He2).
    destruct (loop_exit s2) as [s3 out3]. destruct (loop_exit t2) as [t3 out3'].
    cbn [fst snd] in He1, He2. subst out3'.
    split; [split; [exact He1 | reflexivity] | reflexivity].
  - split; [split; [exact Hb1 | reflexivity] | reflexivity].
Qed.

Lemma process_msg_similar (self i : Z) (sev : Verbosity_Level) (str : string) (s t : Impl) :
  similar s t -> similar (process_msg self i sev str s) (process_msg self i sev str t).
Proof.
  intros H. pose proof (similar_after_subscript s t i H) as H'.
  unfold process_msg.
  assert (overall_verbosity t = overall_verbosity s) as Ho.
  { destruct H as (vm & -> & _). reflexivity. }
  rewrite Ho. destruct (level_le sev (overall_verbosity s)); [|exact H].
  pose proof (subscript_value (message_source_verbosity_map s) i) as Vs.
  pose proof (subscript_value (message_source_verbosity_map t) i) as Vt.
  assert (ceiling_of (message_source_verbosity_map t) i
          = ceiling_of (message_source_verbosity_map s) i) as Hc.
  { destruct H as (vm & -> & Hvm). symmetry. apply Hvm. }
  destruct (subscript (message_source_verbosity_map s) i) as [vs cs].
  destruct (subscript (message_source_verbosity_map t) i) as [vt ct].
  cbn [fst snd] in *. rewrite Vs, Vt, Hc.
  destruct (level_le sev (ceiling_of (message_source_verbosity_map s) i)); [|exact H'].
  destruct H' as (vm & E & Hvm). exists vm. rewrite E. split; [reflexivity | exact Hvm].
Qed.

Lemma register_msg_src_similar (v : Verbosity_Level) (str : string) (s t : Impl) :
  similar s t -> similar (register_msg_src v str s).1 (register_msg_src v str t).1.
Proof.
  intros (vm & -> & Hvm). unfold register_msg_src.
  cbn [fst message_source_name_map message_source_verbosity_map set_verbosity_map
       set_name_map].
  eexists. split; [reflexivity|]. apply same_ceilings_insert, Hvm.
Qed.

Lemma step_similar (o : Op) (st st' : System) :
  similar_sys st st' ->
  similar_sys (step o st).1 (step o st').1 /\ (step o st').2 = (step o st).2.
Proof.
  intros H. destruct o; cbn [step fst snd].
  - destruct H as [H Hc]. split; [|reflexivity].
    split; [apply process_msg_similar, H | exact Hc].
  - destruct H as [(vm & E & Hvm) Hc]. split; [|reflexivity].
    split; [|exact Hc]. exists vm. cbn [on_impl impl]. rewrite E.
    split; [reflexivity | exact Hvm].
  - destruct H as [H Hc]. split; [|reflexivity].
    split; [apply register_msg_src_similar, H | exact Hc].
  - pose proof (loop_iteration_similar st st' H) as Hi.
    destruct (loop_iteration st) as [[a out]|], (loop_iteration st') as [[b out']|];
      try contradiction; cbn [fst snd].
    + exact Hi.
    + split; [exact H | reflexivity].
Qed.

Lemma run_similar (ops : list Op) : forall st st' : System,
  similar_sys st st' ->
  similar_sys (run ops st).1 (run ops st').1 /\ (run ops st').2 = (run ops st).2.
Proof.
  induction ops as [|o ops IH]; intros st st' H; cbn [run].
  - split; [exact H | reflexivity].
  - destruct (step_similar o st st' H) as [H1 H2].
    destruct (step o st) as [a out1], (step o st') as [b out1'].
    cbn [fst snd] in H1, H2. subst out1'.
    destruct (IH a b H1) as [H3 H4].
    destruct (run ops a) as [a2 out2], (run ops b) as [b2 out2'].
    cbn [fst snd] in *. subst out2'. split; [exact H3 | reflexivity].
Qed.

(** A call of [process_msg] that drops its message leaves a similar state
    with the same queue. *)
Lemma process_msg_dropped (self i : Z) (sev : Verbosity_Level) (str : string) (s : Impl) :
  passes s (mkMessage_Parms ACTION_DISPLAY_MSG self i sev str) = false ->
  similar s (process_msg self i sev str s)
  /\ message_queue (process_msg self i sev str s) = message_queue s.
Proof.
  unfold passes. cbn [severity src]. intros Hp. unfold process_msg.
  destruct (level_le sev (overall_verbosity s)); [|split; [apply similar_refl | reflexivity]].
  rewrite andb_true_r in Hp.
  pose proof (subscript_value (message_source_verbosity_map s) i) as V.
  assert (same_ceilings (message_source_verbosity_map s)
            (subscript (message_source_verbosity_map s) i).1) as Hsc.
  { intros j. symmetry. apply ceiling_of_subscript. }
  destruct (subscript (message_source_verbosity_map s) i) as [vm c].
  cbn [fst snd] in *. rewrite V, Hp.
  split; [|reflexivity].
  exists vm. split; [reflexivity | exact Hsc].
Qed.

(** A call of [process_msg] whose message passes both ceilings appends it to
    the queue. *)
Lemma process_msg_enqueued (self i : Z) (sev : Verbosity_Level) (str : string) (s : Impl) :
  passes s (mkMessage_Parms ACTION_DISPLAY_MSG self i sev str) = true ->
  process_msg self i sev str s
  = set_message_queue
      (push (mkMessage_Parms ACTION_DISPLAY_MSG self i sev str) (message_queue s))
      (set_verbosity_map (subscript (message_source_verbosity_map s) i).1 s).
Proof.
  unfold passes. cbn [severity src]. intros Hp.
  apply andb_true_iff in Hp. destruct Hp as [Hc Ho].
  unfold process_msg. rewrite Ho.
  pose proof (subscript_value (message_source_verbosity_map s) i) as V.
  destruct (subscript (message_source_verbosity_map s) i) as [vm c].
  cbn [fst snd] in *. rewrite V, Hc. reflexivity.
Qed.

(** What one iteration does with a Display message, by the render decision
    on the state the consumer finds. *)
Lemma render_decision (st : System) (l : Loop_Locals) (m : Message_Parms)
    (q : list Message_Parms) :
  consumer st = Looping l -> we_are_dead (impl st) = false ->
  message_queue (impl st) = m :: q -> action m = ACTION_DISPLAY_MSG ->
  exists st' : System,
    loop_iteration st
    = Some (st', if passes (impl st) m
                 then (display m (set_msg_to_display
                                    (display_text (message_source_name_map (impl st)) m) l)).2
                 else "")
    /\ consumer st'
       = Looping (if passes (impl st) m
                  then (display m (set_msg_to_display
                                     (display_text (message_source_name_map (impl st)) m) l)).1
                  else set_msg_to_display
                         (display_text (message_source_name_map (impl st)) m) l)
    /\ message_queue (impl st') = q.
Proof.
  intros Hc Hd Hq Ha. unfold loop_iteration. rewrite Hc, Hq. cbn [pop].
  set (s1 := set_is_processing true _).
  assert (passes s1 m = passes (impl st) m) as Hp1 by reflexivity.
  assert (message_source_name_map s1 = message_source_name_map (impl st)) as Hn by reflexivity.
  destruct (passes (impl st) m) eqn:Hp.
  - rewrite (loop_body_displayed s1 l m Ha Hp1).
    replace (we_are_dead (set_verbosity_map _ s1)) with false by (symmetry; exact Hd).
    rewrite Hn. eexists. split; [reflexivity|]. split; reflexivity.
  - rewrite (loop_body_dropped s1 l m Ha Hp1).
    replace (we_are_dead (set_verbosity_map _ s1)) with false by (symmetry; exact Hd).
    rewrite Hn. eexists. split; [reflexivity|]. split; reflexivity.
Qed.

(** C1. (a) For a Display message at the head of the queue, the consumer
    decides whether to render it from the state at that moment: the message
    is displayed when its severity is within the current ceiling of its
    source and the current global ceiling, and otherwise nothing is written
    and the ticker state is left alone.  (b) Hence a message that passed the
    filter of [process_msg] and sits in the queue is suppressed when
    [set_overall_verbosity] lowers the global ceiling below its severity
    before the consumer reaches it, while without that call it is displayed.
    (c) A message that [process_msg] dropped is not in the queue, and
    whatever is done afterwards (raising the ceilings included) the output
    is what it would have been had [process_msg] not been called. *)
Theorem C1_render_time_filter :
  (forall (st : System) (l : Loop_Locals) (m : Message_Parms) (q : list Message_Parms),
      consumer st = Looping l -> we_are_dead (impl st) = false ->
      message_queue (impl st) = m :: q -> action m = ACTION_DISPLAY_MSG ->
      let l0 := set_msg_to_display (display_text (message_source_name_map (impl st)) m) l in
      exists st' : System,
        loop_iteration st
        = Some (st', if level_le (severity m)
                          (ceiling_of (message_source_verbosity_map (impl st)) (src m))
                        && level_le (severity m) (overall_verbosity (impl st))
                     then (display m l0).2 else "")
        /\ consumer st'
           = Looping (if level_le (severity m)
                            (ceiling_of (message_source_verbosity_map (impl st)) (src m))
                          && level_le (severity m) (overall_verbosity (impl st))
                       then (display m l0).1 else l0)
        /\ message_queue (impl st') = q)
  /\ (forall (st : System) (l : Loop_Locals) (self i : Z) (sev v : Verbosity_Level)
             (str : string),
        let m := mkMessage_Parms ACTION_DISPLAY_MSG self i sev str in
        let l0 := set_msg_to_display (display_text (message_source_name_map (impl st)) m) l in
        consumer st = Looping l -> we_are_dead (impl st) = false ->
        message_queue (impl st) = [] ->
        passes (impl st) m = true ->
        level_le sev v = false ->
        message_queue (impl (step (Call_process_msg self i sev str) st).1) = [m]
        /\ (run [Call_process_msg self i sev str; Call_set_overall_verbosity v;
                 Consumer_iteration] st).2 = ""
        /\ message_queue
             (impl (run [Call_process_msg self i sev str; Call_set_overall_verbosity v;
                         Consumer_iteration] st).1) = []
        /\ (run [Call_process_msg self i sev str; Consumer_iteration] st).2
           = (display m l0).2)
  /\ (forall (st : System) (self i : Z) (sev : Verbosity_Level) (str : string)
             (ops : list Op),
        passes (impl st) (mkMessage_Parms ACTION_DISPLAY_MSG self i sev str) = false ->
        message_queue (impl (step (Call_process_msg self i sev str) st).1)
        = message_queue (impl st)
        /\ (run (Call_process_msg self i sev str :: ops) st).2 = (run ops st).2).
Proof.
  split; [|split].
  - intros st l m q Hc Hd Hq Ha l0. subst l0.
    destruct (render_decision st l m q Hc Hd Hq Ha) as (st' & E & Hc' & Hq').
    exists st'. split; [exact E|]. split; [exact Hc' | exact Hq'].
  - intros st l self i sev v str m l0 Hc Hd Hq Hp Hv. subst l0.
    pose proof (process_msg_enqueued self i sev str (impl st) Hp) as E.
    fold m in E. rewrite Hq in E. cbn [push app] in E.
    set (st1 := on_impl (process_msg self i sev str) st).
    assert (message_queue (impl st1) = [m]) as Hq1.
    { subst st1. cbn [on_impl impl]. rewrite E. reflexivity. }
    assert (message_source_name_map (impl st1) = message_source_name_map (impl st)) as Hn1.
    { subst st1. cbn [on_impl impl]. rewrite E. reflexivity. }
    assert (passes (impl st1) m = true) as Hp1.
    { subst st1. cbn [on_impl impl]. rewrite E.
      rewrite <- Hp. apply (passes_after_subscript (impl st) i m). }
    assert (we_are_dead (impl st1) = false) as Hd1.
    { subst st1. cbn [on_impl impl]. rewrite E. exact Hd. }
    split; [exact Hq1|].
    set (st2 := on_impl (set_overall_verbosity v) st1).
    destruct (render_decision st2 l m [] Hc Hd1 Hq1 eq_refl) as (st3 & E3 & _ & Hq3).
    assert (passes (impl st2) m = false) as Hp2.
    { unfold passes. subst st2. cbn [on_impl impl set_overall_verbosity set_overall
        overall_verbosity severity m]. rewrite Hv. apply andb_false_r. }
    rewrite Hp2 in E3.
    destruct (render_decision st1 l m [] Hc Hd1 Hq1 eq_refl) as (st4 & E4 & _ & _).
    rewrite Hp1, Hn1 in E4.
    cbn [run step]. fold st1. fold st2. rewrite E3, E4.
    split; [reflexivity|]. split; [exact Hq3|].
    rewrite append_nil_l, append_empty_r. reflexivity.
  - intros st self i sev str ops Hp.
    destruct (process_msg_dropped self i sev str (impl st) Hp) as [Hs Hq].
    split; [exact Hq|].
    cbn [run step].
    assert (similar_sys st (on_impl (process_msg self i sev str) st)) as H.
    { split; [exact Hs | reflexivity]. }
    destruct (run_similar ops _ _ H) as [_ Hout].
    destruct (run ops (on_impl (process_msg self i sev str) st)) as [st2 out2].
    cbn [snd] in *. rewrite append_nil_l. exact Hout.
Qed.

(** The scenario of the specification: source 1 is registered as "Net" with
    ceiling Everything; thread 5 reports "connect failed" at Errors, which is
    enqueued under the MinorSteps ceiling; the ceiling is then lowered to
    Quiet, and the consumer writes nothing. *)
Lemma C1_render_time_filter_witness :
  let st := on_impl (fun s => (register_msg_src VERBOSITY_EVERYTHING "Net" s).1)
              fresh_system in
  (run [Call_process_msg 5 1 VERBOSITY_ERRORS "connect failed";
        Call_set_overall_verbosity VERBOSITY_QUIET; Consumer_iteration] st).2 = ""
  /\ (run [Call_process_msg 5 1 VERBOSITY_ERRORS "connect failed"; Consumer_iteration] st).2
     = "[ 5] Error:  Net - connect failed" +:+ endl.
Proof.
  intros st.
  destruct (proj1 (proj2 C1_render_time_filter) st loop_init 5 1 VERBOSITY_ERRORS
              VERBOSITY_QUIET "connect failed" eq_refl eq_refl eq_refl eq_refl eq_refl)
    as (_ & H1 & _ & H2).
  split; [exact H1 | exact H2].
Defined.

(** * Further properties of the code *)

(** ** The queue *)

Lemma pushes_app (objs : list Message_Parms) : forall q : list Message_Parms,
  pushes objs q = q ++ objs.
Proof.
  induction objs as [|obj objs IH]; intros q; cbn [pushes fold_left].
  - rewrite app_nil_r. reflexivity.
  - fold (pushes objs (push obj q)). rewrite IH. unfold push.
    rewrite <- app_assoc. reflexivity.
Qed.

Lemma pops_take_drop (n : nat) : forall q : list Message_Parms,
  (n <= length q)%nat -> pops n q = Some (take n q, drop n q).
Proof.
  induction n as [|n IH]; intros q Hn; cbn [pops].
  - rewrite take_0, drop_0. reflexivity.
  - destruct q as [|obj q]; cbn in Hn; [lia|]. cbn [pop].
    rewrite IH by lia. reflexivity.
Qed.

Lemma pops_too_many (n : nat) : forall q : list Message_Parms,
  (length q < n)%nat -> pops n q = None.
Proof.
  induction n as [|n IH]; intros q Hn; [lia|]. cbn [pops].
  destruct q as [|obj q]; cbn [pop]; [reflexivity|].
  cbn in Hn. rewrite IH by lia. reflexivity.
Qed.

(** X1. First in, first out.  After the objects [objs] were pushed onto a queue
    holding [q], [n] pops return the first [n] objects of [q ++ objs] in that
    order and leave the others; [wait_empty] then returns exactly when all of
    them have been popped; and one pop more than there are objects blocks. *)
Theorem queue_first_in_first_out (q objs : list Message_Parms) (n : nat) :
  (n <= length q + length objs)%nat ->
  pops n (pushes objs q) = Some (take n (q ++ objs), drop n (q ++ objs))
  /\ (wait_empty (drop n (q ++ objs)) = Some tt <-> n = (length q + length objs)%nat)
  /\ pops (S (length q + length objs)) (pushes objs q) = None.
Proof.
  intros Hn. rewrite pushes_app.
  split; [apply pops_take_drop; rewrite length_app; exact Hn|].
  split.
  - destruct (drop n (q ++ objs)) as [|x r] eqn:E.
    + split; [intros _ | reflexivity].
      apply (f_equal length) in E. rewrite length_drop, length_app in E. cbn in E. lia.
    + split; [discriminate|]. intros ->.
      rewrite drop_ge in E by (rewrite length_app; lia). discriminate.
  - apply pops_too_many. rewrite length_app. lia.
Qed.

(** Two messages pushed behind one that waits, and two pops. *)
Lemma queue_first_in_first_out_witness :
  let a := mkMessage_Parms ACTION_DISPLAY_MSG 1 0 VERBOSITY_ERRORS "a" in
  let b := mkMessage_Parms ACTION_DISPLAY_MSG 2 0 VERBOSITY_ERRORS "b" in
  let c := mkMessage_Parms ACTION_KILL 1 0 VERBOSITY_QUIET "" in
  pops 2 (pushes [b; c] [a]) = Some ([a; b], [c]).
Proof.
  intros a b c.
  refine (proj1 (queue_first_in_first_out [a] [b; c] 2 _)). cbn. lia.
Defined.

(** ** The algorithms of [functional.h] *)

Lemma copy_if_eq {A : Type} (c : A -> bool) (input : list A) : forall out : list A,
  copy_if c input out = out ++ List.filter c input.
Proof.
  induction input as [|x input IH]; intros out; cbn [copy_if List.filter].
  - rewrite app_nil_r. reflexivity.
  - rewrite IH. destruct (c x); [rewrite <- app_assoc|]; reflexivity.
Qed.

Lemma cast_eq {A B : Type} (d : A -> B) (input : list A) : forall out : list B,
  cast d input out = out ++ List.map d input.
Proof.
  induction input as [|x input IH]; intros out; cbn [cast List.map].
  - rewrite app_nil_r. reflexivity.
  - rewrite IH, <- app_assoc. reflexivity.
Qed.

Lemma cast_if_eq {A B : Type} (c : A -> bool) (d : A -> B) (input : list A) :
  forall out : list B, cast_if c d input out = out ++ List.map d (List.filter c input).
Proof.
  induction input as [|x input IH]; intros out; cbn [cast_if List.filter].
  - rewrite app_nil_r. reflexivity.
  - rewrite IH. destruct (c x); cbn [List.map]; [rewrite <- app_assoc|]; reflexivity.
Qed.

Lemma split_if_eq {A : Type} (c : A -> bool) (input : list A) : forall out1 out2 : list A,
  split_if c input out1 out2
  = (out1 ++ List.filter c input, out2 ++ List.filter (fun x => negb (c x)) input).
Proof.
  induction input as [|x input IH]; intros out1 out2; cbn [split_if List.filter].
  - rewrite !app_nil_r. reflexivity.
  - destruct (c x); rewrite IH; cbn [negb]; rewrite <- app_assoc; reflexivity.
Qed.

(** X2. [copy_if] keeps what the destination held, appends the elements of the
    range that satisfy the condition, in their order, and nothing else; so
    every appended element satisfies the condition, and copying the result
    again under the same condition copies all of it. *)
Theorem copy_if_appends_the_satisfying {A : Type} (c : A -> bool) (input out : list A) :
  exists copied : list A,
    copy_if c input out = out ++ copied
    /\ copied = List.filter c input
    /\ Forall (fun x => c x = true) copied
    /\ (forall x : A, In x copied <-> In x input /\ c x = true)
    /\ copy_if c copied [] = copied.
Proof.
  exists (List.filter c input).
  split; [apply copy_if_eq|]. split; [reflexivity|].
  assert (Forall (fun x => c x = true) (List.filter c input)) as HF.
  { apply List.Forall_forall. intros x Hx. apply List.filter_In in Hx. apply Hx. }
  split; [exact HF|]. split; [intros x; apply List.filter_In|].
  rewrite copy_if_eq. cbn [app].
  induction HF as [|x l Hx _ IH]; cbn [List.filter]; [reflexivity|].
  rewrite Hx, IH. reflexivity.
Qed.

(** X3. [split_if] sends every element of the range to exactly one of the two
    destinations: the first receives what [copy_if] would copy, the second
    what [copy_if] would copy under the negated condition, each in the order
    of the range, and together the two receive a rearrangement of the range. *)
Theorem split_if_partitions {A : Type} (c : A -> bool) (input out1 out2 : list A) :
  (split_if c input out1 out2).1 = copy_if c input out1
  /\ (split_if c input out1 out2).2 = copy_if (fun x => negb (c x)) input out2
  /\ Permutation (List.filter c input ++ List.filter (fun x => negb (c x)) input) input
  /\ (length (split_if c input out1 out2).1 + length (split_if c input out1 out2).2
      = length out1 + length out2 + length input)%nat.
Proof.
  rewrite split_if_eq, !copy_if_eq. cbn [fst snd].
  split; [reflexivity|]. split; [reflexivity|].
  assert (Permutation (List.filter c input ++ List.filter (fun x => negb (c x)) input) input)
    as HP.
  { induction input as [|x input IH]; cbn [List.filter]; [constructor|].
    destruct (c x); cbn [negb app].
    - constructor. exact IH.
    - rewrite <- Permutation_middle. constructor. exact IH. }
  split; [exact HP|].
  apply Permutation_length in HP. rewrite !length_app in *. lia.
Qed.

(** X4. [cast] appends one element per element of the range, the cast of the
    element at the same position, also where the cast yields the null
    pointer; [cast_if] is [cast] applied to what [copy_if] selects. *)
Theorem cast_keeps_every_element {A B : Type} (c : A -> bool) (d : A -> B)
    (input : list A) (out : list B) :
  length (cast d input out) = (length out + length input)%nat
  /\ (forall i : nat, (i < length out)%nat -> cast d input out !! i = out !! i)
  /\ (forall i : nat, cast d input out !! (length out + i)%nat = d <$> (input !! i))
  /\ cast_if c d input out = cast d (copy_if c input []) out.
Proof.
  rewrite cast_if_eq, !cast_eq, copy_if_eq. cbn [app].
  split; [rewrite length_app, length_map; reflexivity|].
  split; [intros i Hi; apply lookup_app_l; exact Hi|].
  split; [|reflexivity].
  intros i. rewrite lookup_app_r by lia.
  replace (length out + i - length out)%nat with i by lia.
  apply list_lookup_fmap.
Qed.

(** ** Registering sources *)

Lemma to_int_size (names : gmap Z string) :
  Z.of_nat (base.size names) <= INT_MAX ->
  to_int (Z.of_nat (base.size names)) = Z.of_nat (base.size names).
Proof.
  unfold INT_MAX, int_bits. replace (2 ^ (32 - 1) - 1) with 2147483647 by reflexivity.
  intros H. apply to_int_small. replace (2 ^ 31) with 2147483648 by reflexivity. lia.
Qed.

Lemma dense_fresh (names : gmap Z string) :
  dense names -> names !! Z.of_nat (base.size names) = None.
Proof.
  intros Hd. destruct (names !! Z.of_nat (base.size names)) eqn:E; [|reflexivity].
  assert (is_Some (names !! Z.of_nat (base.size names))) as H by (rewrite E; eauto).
  apply Hd in H. lia.
Qed.

Lemma dense_insert (names : gmap Z string) (str : string) :
  dense names -> dense (<[Z.of_nat (base.size names) := str]> names).
Proof.
  intros Hd k. rewrite map_size_insert_None by (apply dense_fresh, Hd).
  destruct (decide (Z.of_nat (base.size names) = k)) as [<-|Hne].
  - rewrite lookup_insert_eq. split; [intros _; lia | eauto].
  - rewrite lookup_insert_ne by assumption. rewrite (Hd k). lia.
Qed.

(** X5. [register_msg_src] on a name map holding the ids 0 .. n - 1 (with n
    within [int]): the id returned is n, which was free; afterwards it maps
    to the given name and its ceiling is the given level, whatever the
    verbosity map held for it before; no other id changes its name or its
    entry in the verbosity map; the name map holds the ids 0 .. n; the queue
    and the global ceiling are untouched. *)
Theorem register_msg_src_next_id (v : Verbosity_Level) (str : string) (s : Impl) :
  dense (message_source_name_map s) ->
  Z.of_nat (base.size (message_source_name_map s)) <= INT_MAX ->
  let s' := (register_msg_src v str s).1 in
  let id := (register_msg_src v str s).2 in
  id = Z.of_nat (base.size (message_source_name_map s))
  /\ message_source_name_map s !! id = None
  /\ message_source_name_map s' !! id = Some str
  /\ ceiling_of (message_source_verbosity_map s') id = v
  /\ (forall k : Z, k <> id ->
        message_source_name_map s' !! k = message_source_name_map s !! k
        /\ message_source_verbosity_map s' !! k = message_source_verbosity_map s !! k)
  /\ dense (message_source_name_map s')
  /\ base.size (message_source_name_map s') = S (base.size (message_source_name_map s))
  /\ message_queue s' = message_queue s
  /\ overall_verbosity s' = overall_verbosity s.
Proof.
  intros Hd Hmax s' id. subst s' id. unfold register_msg_src.
  cbn [fst snd message_source_name_map message_source_verbosity_map set_verbosity_map
       set_name_map message_queue overall_verbosity].
  rewrite (to_int_size _ Hmax).
  split; [reflexivity|].
  split; [apply dense_fresh, Hd|].
  split; [apply lookup_insert_eq|].
  split; [unfold ceiling_of; rewrite lookup_insert_eq; reflexivity|].
  split; [intros k Hk; rewrite !lookup_insert_ne by congruence; split; reflexivity|].
  split; [apply dense_insert, Hd|].
  split; [apply map_size_insert_None, dense_fresh, Hd|].
  split; reflexivity.
Qed.

(** The first registration after construction gets id 1. *)
Lemma register_msg_src_next_id_witness :
  (register_msg_src VERBOSITY_EVERYTHING "Net" (Impl_init VERBOSITY_MINOR_STEPS 2)).2 = 1.
Proof.
  refine (proj1 (register_msg_src_next_id VERBOSITY_EVERYTHING "Net"
                   (Impl_init VERBOSITY_MINOR_STEPS 2) _ _)).
  - intros k. cbn [Impl_init message_source_name_map].
    destruct (decide (0 = k)) as [<-|Hne].
    + rewrite lookup_insert_eq. split; [intros _; vm_compute; split; congruence | eauto].
    + rewrite lookup_insert_ne, lookup_empty by assumption.
      split; [intros [x Hx]; discriminate|].
      replace (base.size (<[0:="Message_Processor"]> (∅ : gmap Z string))) with 1%nat
        by reflexivity.
      lia.
  - vm_compute. discriminate.
Defined.

(** The name map is read but never written by [process_msg] and by the
    consumer. *)
Lemma process_msg_names (self i : Z) (sev : Verbosity_Level) (str : string) (s : Impl) :
  message_source_name_map (process_msg self i sev str s) = message_source_name_map s.
Proof.
  unfold process_msg. destruct (level_le sev (overall_verbosity s)); [|reflexivity].
  destruct (subscript (message_source_verbosity_map s) i) as [vm c].
  destruct (level_le sev c); reflexivity.
Qed.

Lemma loop_body_names (s : Impl) (l : Loop_Locals) (m : Message_Parms) :
  message_source_name_map (loop_body s l m).1.1 = message_source_name_map s.
Proof.
  destruct (action m) eqn:Ha.
  - unfold loop_body. rewrite Ha. reflexivity.
  - destruct (passes s m) eqn:Hp.
    + rewrite (loop_body_displayed s l m Ha Hp). reflexivity.
    + rewrite (loop_body_dropped s l m Ha Hp). reflexivity.
Qed.

Lemma loop_iteration_names (st st' : System) (out : string) :
  loop_iteration st = Some (st', out) ->
  message_source_name_map (impl st') = message_source_name_map (impl st).
Proof.
  unfold loop_iteration. destruct (consumer st) as [l|]; [|discriminate].
  destruct (message_queue (impl st)) as [|m q]; cbn [pop]; [discriminate|].
  set (s1 := set_is_processing true _).
  pose proof (loop_body_names s1 l m) as Hn.
  destruct (loop_body s1 l m) as [[s2 l2] out2]. cbn [fst] in Hn.
  destruct (we_are_dead s2).
  - unfold loop_exit. rewrite make_msg_to_display_eq.
    intros E. inversion E; subst. cbn [impl message_source_name_map set_verbosity_map
      set_is_processing]. exact Hn.
  - intros E. inversion E; subst. exact Hn.
Qed.

Lemma step_names (o : Op) (st : System) :
  match o with
  | Call_register_msg_src v str =>
      message_source_name_map (impl (step o st).1)
      = <[to_int (Z.of_nat (base.size (message_source_name_map (impl st)))) := str]>
          (message_source_name_map (impl st))
  | _ => message_source_name_map (impl (step o st).1) = message_source_name_map (impl st)
  end.
Proof.
  destruct o; cbn [step fst on_impl impl].
  - apply process_msg_names.
  - reflexivity.
  - reflexivity.
  - destruct (loop_iteration st) as [[st' out]|] eqn:E; cbn [fst]; [|reflexivity].
    exact (loop_iteration_names st st' out E).
Qed.

Lemma dense_init : dense (message_source_name_map (Impl_init VERBOSITY_MINOR_STEPS 2)).
Proof.
  intros k. cbn [Impl_init message_source_name_map].
  replace (base.size (<[0:="Message_Processor"]> (∅ : gmap Z string))) with 1%nat
    by reflexivity.
  destruct (decide (0 = k)) as [<-|Hne].
  - rewrite lookup_insert_eq. split; [intros _; lia | eauto].
  - rewrite lookup_insert_ne, lookup_empty by assumption.
    split; [intros [x Hx]; discriminate | lia].
Qed.

(** ** Enqueueing *)

Lemma process_msg_queue (self i : Z) (sev : Verbosity_Level) (str : string) (s : Impl) :
  message_queue (process_msg self i sev str s)
  = if passes s (mkMessage_Parms ACTION_DISPLAY_MSG self i sev str)
    then message_queue s ++ [mkMessage_Parms ACTION_DISPLAY_MSG self i sev str]
    else message_queue s.
Proof.
  destruct (passes s (mkMessage_Parms ACTION_DISPLAY_MSG self i sev str)) eqn:Hp.
  - rewrite (process_msg_enqueued self i sev str s Hp). reflexivity.
  - apply (process_msg_dropped self i sev str s Hp).
Qed.

Lemma process_msg_we_are_dead (self i : Z) (sev : Verbosity_Level) (str : string) (s : Impl) :
  we_are_dead (process_msg self i sev str s) = we_are_dead s.
Proof.
  unfold process_msg. destruct (level_le sev (overall_verbosity s)); [|reflexivity].
  destruct (subscript (message_source_verbosity_map s) i) as [vm c].
  destruct (level_le sev c); reflexivity.
Qed.

(** X7. [process_msg] appends a Display message carrying the caller's thread id,
    the source id, the severity and the text exactly when the severity is
    within both the ceiling of the source and the global ceiling (the order
    of the two tests does not matter for the outcome), and leaves the queue
    alone otherwise; the messages already queued keep their places; the
    ceilings every source reads and the global ceiling are unchanged. *)
Theorem process_msg_enqueues_iff_passes (self i : Z) (sev : Verbosity_Level) (str : string)
    (s : Impl) :
  let m := mkMessage_Parms ACTION_DISPLAY_MSG self i sev str in
  let s' := process_msg self i sev str s in
  message_queue s'
  = (if level_le sev (ceiling_of (message_source_verbosity_map s) i)
        && level_le sev (overall_verbosity s)
     then message_queue s ++ [m] else message_queue s)
  /\ (forall j : Z, ceiling_of (message_source_verbosity_map s') j
                    = ceiling_of (message_source_verbosity_map s) j)
  /\ overall_verbosity s' = overall_verbosity s
  /\ message_source_name_map s' = message_source_name_map s.
Proof.
  intros m s'. subst m s'.
  split; [apply process_msg_queue|].
  split; [|split; [|apply process_msg_names]].
  - intros j. unfold process_msg.
    destruct (level_le sev (overall_verbosity s)); [|reflexivity].
    destruct (subscript (message_source_verbosity_map s) i) as [vm' c] eqn:Es.
    assert (vm' = (subscript (message_source_verbosity_map s) i).1) as ->
      by (rewrite Es; reflexivity).
    destruct (level_le sev c); cbn [message_source_verbosity_map set_verbosity_map
      set_message_queue]; apply ceiling_of_subscript.
  - unfold process_msg. destruct (level_le sev (overall_verbosity s)); [|reflexivity].
    destruct (subscript (message_source_verbosity_map s) i) as [vm c].
    destruct (level_le sev c); reflexivity.
Qed.

(** ** What stops the consumer *)

Lemma step_alive (o : Op) (st : System) : alive st -> alive (step o st).1.
Proof.
  intros (Hd & [l Hc] & Hq). destruct o; cbn [step fst].
  - split; [|split].
    + cbn [on_impl impl]. rewrite process_msg_we_are_dead. exact Hd.
    + exists l. exact Hc.
    + cbn [on_impl impl]. rewrite process_msg_queue.
      destruct (passes (impl st) _); [|exact Hq].
      apply Forall_app. split; [exact Hq|]. constructor; [reflexivity | constructor].
  - split; [exact Hd|]. split; [exists l; exact Hc | exact Hq].
  - split; [exact Hd|]. split; [exists l; exact Hc | exact Hq].
  - destruct (message_queue (impl st)) as [|m q] eqn:Eq.
    + unfold loop_iteration. rewrite Hc, Eq. cbn [pop fst].
      split; [exact Hd|]. split; [exists l; exact Hc | rewrite Eq; constructor].
    + inversion Hq as [|? ? Hm Hq']; subst.
      destruct (loop_iteration_display st l m q Hc Eq Hm Hd)
        as (st' & out & l' & E & Hc' & Hq'' & Hd').
      rewrite E. cbn [fst].
      split; [exact Hd'|]. split; [exists l'; exact Hc' | rewrite Hq''; exact Hq'].
Qed.

(** X8. No schedule of [process_msg], [set_overall_verbosity] and
    [register_msg_src] calls and consumer iterations makes the consumer
    leave its loop: as long as no Kill message is in the queue, none gets
    there, [we_are_dead] stays false and the consumer stays in the loop.
    Only the destructor pushes a Kill message. *)
Theorem consumer_stops_only_on_kill (ops : list Op) : forall st : System,
  alive st -> alive (run ops st).1.
Proof.
  induction ops as [|o ops IH]; intros st H; cbn [run]; [exact H|].
  pose proof (step_alive o st H) as H1.
  destruct (step o st) as [st1 out1]. cbn [fst] in H1.
  specialize (IH st1 H1). destruct (run ops st1) as [st2 out2]. exact IH.
Qed.

(** A freshly constructed processor after a message and two iterations. *)
Lemma consumer_stops_only_on_kill_witness :
  alive (run [Call_process_msg 5 0 VERBOSITY_ERRORS "connect failed";
              Consumer_iteration; Consumer_iteration] fresh_system).1.
Proof.
  apply consumer_stops_only_on_kill.
  split; [reflexivity|]. split; [exists loop_init; reflexivity | constructor].
Defined.

(** ** More of the ticker state machine *)

(** X10. While the loop is ticking, a displayed ticker message from the
    remembered source and thread with another text starts a new ticker line:
    a line break, the rendered text and the first glyph of the rotation.  The
    tick count restarts at 1, the new text is remembered, and the remembered
    source and thread stay. *)
Theorem ticker_restarts_on_new_text (s : Impl) (l : Loop_Locals) (m : Message_Parms) :
  action m = ACTION_DISPLAY_MSG ->
  passes s m = true ->
  is_ticker (msg m) = true ->
  tick_count l <> 0 ->
  src m = prev_src l -> tid m = to_ulong (prev_tid l) -> msg m <> prev_msg l ->
  let l' := (loop_body s l m).1.2 in
  (loop_body s l m).2 = endl +:+ display_text (message_source_name_map s) m +:+ tick_string 0
  /\ tick_count l' = 1
  /\ prev_msg l' = msg m
  /\ prev_src l' = prev_src l
  /\ prev_tid l' = prev_tid l.
Proof.
  intros Ha Hp Ht Hn Hs1 Hs2 Hs3 l'. subst l'.
  rewrite (loop_body_displayed s l m Ha Hp). cbn [fst snd].
  unfold display. rewrite Ht. unfold display_ticker, same_source.
  cbn [tick_count set_msg_to_display prev_msg prev_tid prev_src prev_severity msg_to_display].
  apply Z.eqb_neq in Hn. rewrite Hn. cbn [negb].
  rewrite Hs1, Hs2, !Z.eqb_refl. cbn [andb].
  apply String.eqb_neq in Hs3. rewrite Hs3. cbn [negb fst snd tick_count prev_msg
    prev_src prev_tid].
  repeat split; reflexivity.
Qed.

(** Thread 5 moves on from "loading ." to "parsing ." at its second tick. *)
Lemma ticker_restarts_on_new_text_witness :
  let s := Impl_init VERBOSITY_MINOR_STEPS 2 in
  let l := mkLocals 2 "loading ." "" 5 0 VERBOSITY_ERRORS in
  let m := mkMessage_Parms ACTION_DISPLAY_MSG 5 0 VERBOSITY_ERRORS "parsing ." in
  (loop_body s l m).2
  = endl +:+ "[ 5] Error:  Message_Processor - parsing ." +:+ String BS "|".
Proof.
  intros s l m.
  refine (proj1 (ticker_restarts_on_new_text s l m eq_refl eq_refl eq_refl _ eq_refl
                   eq_refl _)); discriminate.
Defined.

(** X11. A displayed ticker message directly followed by a displayed message that
    is not a ticker, to a loop that is not ticking: the ticker text with the
    first glyph, one line break, and the text of the second message.  The
    loop is not ticking afterwards and remembers the second message. *)
Theorem ticker_then_normal_message (st : System) (l : Loop_Locals) (m1 m2 : Message_Parms)
    (rest : list Message_Parms) :
  consumer st = Looping l -> we_are_dead (impl st) = false ->
  tick_count l = 0 ->
  message_queue (impl st) = m1 :: m2 :: rest ->
  action m1 = ACTION_DISPLAY_MSG -> passes (impl st) m1 = true -> is_ticker (msg m1) = true ->
  action m2 = ACTION_DISPLAY_MSG -> passes (impl st) m2 = true -> is_ticker (msg m2) = false ->
  (consumer_runs 2 st).2
  = display_text (message_source_name_map (impl st)) m1 +:+ tick_string 0
      +:+ endl +:+ display_text (message_source_name_map (impl st)) m2
  /\ exists text : string,
       consumer (consumer_runs 2 st).1
       = Looping (mkLocals 0 (msg m2) text (to_int (tid m2)) (src m2) (severity m2)).
Proof.
  intros Hc Hd Ht0 Hq Ha1 Hp1 Ht1 Ha2 Hp2 Ht2.
  destruct (render_decision st l m1 (m2 :: rest) Hc Hd Hq Ha1) as (st1 & E1 & Hc1 & Hq1).
  rewrite Hp1 in E1, Hc1.
  assert (we_are_dead (impl st1) = false) as Hd1.
  { destruct (loop_iteration_display st l m1 (m2 :: rest) Hc Hq Ha1 Hd)
      as (st1' & o & l1 & E & _ & _ & H). rewrite E1 in E. inversion E; subst. exact H. }
  assert (passes (impl st1) m2 = true /\
          message_source_name_map (impl st1) = message_source_name_map (impl st))
    as [Hp2' Hn1].
  { split; [|exact (loop_iteration_names st st1 _ E1)].
    revert E1. unfold loop_iteration. rewrite Hc, Hq. cbn [pop].
    set (s1 := set_is_processing true _).
    assert (passes s1 m1 = true) as Hp1' by exact Hp1.
    rewrite (loop_body_displayed s1 l m1 Ha1 Hp1').
    replace (we_are_dead (set_verbosity_map _ s1)) with false by (symmetry; exact Hd).
    intros E. injection E as <-.
    change (passes (set_verbosity_map
                      (subscript (message_source_verbosity_map s1) (src m1)).1 s1) m2 = true).
    rewrite passes_after_subscript. exact Hp2. }
  destruct (render_decision st1 _ m2 rest Hc1 Hd1 Hq1 Ha2) as (st2 & E2 & Hc2 & _).
  rewrite Hp2' in E2, Hc2. rewrite Hn1 in E2, Hc2.
  cbn [consumer_runs]. rewrite E1, E2. cbn [fst snd].
  revert Hc2. unfold display. rewrite Ht1, Ht2. unfold display_ticker, display_normal.
  cbn [tick_count set_msg_to_display prev_msg prev_tid prev_src prev_severity msg_to_display
       fst snd].
  rewrite Ht0. cbn [Z.eqb negb fst snd tick_count msg_to_display prev_severity].
  intros Hc2. split.
  - rewrite append_empty_r, !append_assoc. reflexivity.
  - eexists. exact Hc2.
Qed.

(** "loading ." and then "done", both from thread 5 through source 0. *)
Lemma ticker_then_normal_message_witness :
  let m1 := mkMessage_Parms ACTION_DISPLAY_MSG 5 0 VERBOSITY_ERRORS "loading ." in
  let m2 := mkMessage_Parms ACTION_DISPLAY_MSG 5 0 VERBOSITY_ERRORS "done" in
  let st := mkSystem (set_message_queue [m1; m2] (Impl_init VERBOSITY_MINOR_STEPS 2))
              (Looping loop_init) in
  (consumer_runs 2 st).2
  = "[ 5] Error:  Message_Processor - loading ." +:+ String BS "|" +:+ endl
      +:+ "[ 5] Error:  Message_Processor - done" +:+ endl.
Proof.
  intros m1 m2 st.
  exact (proj1 (ticker_then_normal_message st loop_init m1 m2 [] eq_refl eq_refl eq_refl
                  eq_refl eq_refl eq_refl eq_refl eq_refl eq_refl eq_refl)).
Defined.

(** ** The layout of a rendered line *)

Lemma level_eqb_neq (a b : Verbosity_Level) : a <> b -> level_eqb a b = false.
Proof. destruct a, b; intros H; try reflexivity; congruence. Qed.

Lemma display_text_annotated (names : gmap Z string) (m : Message_Parms) :
  severity m <> VERBOSITY_QUIET ->
  display_text names m
  = line_prefix names m +:+ msg m +:+ (if is_ticker (msg m) then "" else endl).
Proof.
  intros Hq. unfold display_text, line_prefix.
  rewrite (level_eqb_neq _ _ Hq), !append_assoc. reflexivity.
Qed.

(** X12. A rendered line that is not Quiet ends either with the ticker sentinel
    or with a line break: for a text that is not exactly one character long,
    the test of the source is the suffix test; a text that ends with the
    sentinel is rendered so that the line ends with the sentinel, which the
    backspace of the first glyph then overwrites, and any other text is
    rendered with a line break at the end. *)
Theorem rendered_line_ending (names : gmap Z string) (m : Message_Parms) :
  severity m <> VERBOSITY_QUIET ->
  string_size (msg m) <> 1 -> string_size (msg m) < 2 ^ ulong_bits ->
  (is_ticker (msg m) = true <-> ends_with_mark (msg m))
  /\ (ends_with_mark (msg m) -> ends_with_mark (display_text names m))
  /\ (~ ends_with_mark (msg m) -> ends_with_endl (display_text names m)).
Proof.
  intros Hq H1 H2. pose proof (is_ticker_iff_suffix (msg m) H1 H2) as Hiff.
  split; [exact Hiff|]. rewrite (display_text_annotated names m Hq). split.
  - intros Hm. pose proof Hm as [p Hp]. apply Hiff in Hm. rewrite Hm, append_empty_r.
    exists (line_prefix names m +:+ p). rewrite Hp, append_assoc. reflexivity.
  - intros Hm. destruct (is_ticker (msg m)) eqn:E; [destruct Hm; apply Hiff; reflexivity|].
    exists (line_prefix names m +:+ msg m). rewrite append_assoc. reflexivity.
Qed.

(** The line for "loading ." ends with the sentinel. *)
Lemma rendered_line_ending_witness :
  ends_with_mark
    (display_text (message_source_name_map (Impl_init VERBOSITY_MINOR_STEPS 2))
       (mkMessage_Parms ACTION_DISPLAY_MSG 5 0 VERBOSITY_ERRORS "loading .")).
Proof.
  refine (proj1 (proj2 (rendered_line_ending _
            (mkMessage_Parms ACTION_DISPLAY_MSG 5 0 VERBOSITY_ERRORS "loading .") _ _ _)) _).
  - discriminate.
  - discriminate.
  - reflexivity.
  - exists "loading". reflexivity.
Defined.

Lemma substr0_2_is_colons (s : string) :
  String.eqb (substr0 2 s) "::" = String.prefix "::" s.
Proof.
  destruct s as [|a [|b r]]; unfold substr0;
    cbn [String.substring String.eqb String.prefix].
  - reflexivity.
  - destruct (Ascii.eqb a ":"), (ascii_dec ":" a); reflexivity.
  - replace (String.substring 0 0 r) with "" by (destruct r; reflexivity).
    replace (String.prefix "" r) with true by (destruct r; reflexivity).
    cbn [String.eqb].
    destruct (ascii_dec ":" a) as [<-|Ha].
    + rewrite Ascii.eqb_refl.
      destruct (ascii_dec ":" b) as [<-|Hb]; [rewrite Ascii.eqb_refl; reflexivity|].
      destruct (Ascii.eqb_spec b ":"); [congruence | reflexivity].
    + destruct (Ascii.eqb_spec a ":"); [congruence | reflexivity].
Qed.

(** X13. The source part of a rendered line.  A message from a source without a
    name gets no source part, and rendering does not add the source to the
    name map.  For a named source, a text that begins with two colons is
    attached directly to the name, and every other text, also one shorter
    than two characters, follows the name and a separating " - ". *)
Theorem source_name_separator (s : Impl) (m : Message_Parms) :
  message_source_name_map (make_msg_to_display s m).1.1 = message_source_name_map s
  /\ (message_source_name_map s !! src m = None ->
      msg_src_str (message_source_name_map s) m = "")
  /\ (forall name rest : string,
        message_source_name_map s !! src m = Some name -> msg m = "::" +:+ rest ->
        msg_src_str (message_source_name_map s) m +:+ msg m = name +:+ "::" +:+ rest)
  /\ (forall name : string,
        message_source_name_map s !! src m = Some name ->
        String.prefix "::" (msg m) = false ->
        msg_src_str (message_source_name_map s) m +:+ msg m = name +:+ " - " +:+ msg m).
Proof.
  split; [rewrite make_msg_to_display_eq; reflexivity|].
  unfold msg_src_str. rewrite substr0_2_is_colons.
  split; [intros ->; reflexivity|]. split.
  - intros name rest -> ->.
    replace (String.prefix "::" ("::" +:+ rest)) with true; [reflexivity|].
    destruct rest; reflexivity.
  - intros name -> ->. rewrite append_assoc. reflexivity.
Qed.

(** The start message of the constructor goes with the name of source 0. *)
Lemma source_name_separator_witness :
  let s := Impl_init VERBOSITY_EVERYTHING 2 in
  let m := mkMessage_Parms ACTION_DISPLAY_MSG 1 0 VERBOSITY_EVERYTHING
             "::Message_Processor - started Message_Processor" in
  msg_src_str (message_source_name_map s) m +:+ msg m
  = "Message_Processor::Message_Processor - started Message_Processor".
Proof.
  intros s m.
  exact (proj1 (proj2 (proj2 (source_name_separator s m)))
           "Message_Processor" "Message_Processor - started Message_Processor"
           eq_refl eq_refl).
Defined.

(** ** Quiet messages end to end *)

(** X14. A Quiet message cannot be filtered out: whatever the ceilings are, and
    also for a source that was never registered, [process_msg] enqueues it,
    and the consumer, when it is not ticking, writes its text and nothing
    else (for a text the ticker test does not take for a ticker). *)
Theorem quiet_message_always_shown (st : System) (l : Loop_Locals) (self i : Z)
    (str : string) :
  consumer st = Looping l -> we_are_dead (impl st) = false ->
  message_queue (impl st) = [] ->
  tick_count l = 0 -> is_ticker str = false ->
  (run [Call_process_msg self i VERBOSITY_QUIET str; Consumer_iteration] st).2 = str
  /\ message_queue
       (impl (run [Call_process_msg self i VERBOSITY_QUIET str; Consumer_iteration] st).1)
     = [].
Proof.
  intros Hc Hd Hq Ht0 Hn.
  set (m := mkMessage_Parms ACTION_DISPLAY_MSG self i VERBOSITY_QUIET str).
  assert (forall s : Impl, passes s m = true) as Hp.
  { intros s. unfold passes. cbn [severity m]. rewrite !level_le_quiet. reflexivity. }
  pose proof (process_msg_enqueued self i VERBOSITY_QUIET str (impl st) (Hp _)) as E.
  fold m in E. rewrite Hq in E. cbn [push app] in E.
  set (st1 := on_impl (process_msg self i VERBOSITY_QUIET str) st).
  assert (message_queue (impl st1) = [m]) as Hq1.
  { subst st1. cbn [on_impl impl]. rewrite E. reflexivity. }
  assert (we_are_dead (impl st1) = false) as Hd1.
  { subst st1. cbn [on_impl impl]. rewrite process_msg_we_are_dead. exact Hd. }
  destruct (render_decision st1 l m [] Hc Hd1 Hq1 eq_refl) as (st2 & E2 & _ & Hq2).
  rewrite Hp in E2. cbn [run step]. fold st1. rewrite E2. cbn [fst snd].
  split; [|exact Hq2].
  unfold display. cbn [msg m]. rewrite Hn. unfold display_normal, display_text.
  cbn [tick_count set_msg_to_display prev_severity msg_to_display severity msg m snd].
  rewrite Ht0. cbn. rewrite andb_false_r, append_empty_r. reflexivity.
Qed.

(** Program output through the unregistered source 9 while everything is
    set to Quiet. *)
Lemma quiet_message_always_shown_witness :
  let st := mkSystem (Impl_init VERBOSITY_QUIET 2) (Looping loop_init) in
  (run [Call_process_msg 5 9 VERBOSITY_QUIET "42 files"; Consumer_iteration] st).2
  = "42 files".
Proof.
  intros st.
  exact (proj1 (quiet_message_always_shown st loop_init 5 9 "42 files"
                  eq_refl eq_refl eq_refl eq_refl eq_refl)).
Defined.

(** ** The consumer around a Kill message *)

(** The state an iteration leaves for a Display message. *)
Lemma loop_iteration_display_exact (st : System) (l : Loop_Locals) (m : Message_Parms)
    (q : list Message_Parms) :
  consumer st = Looping l -> we_are_dead (impl st) = false ->
  message_queue (impl st) = m :: q -> action m = ACTION_DISPLAY_MSG ->
  let l0 := set_msg_to_display (display_text (message_source_name_map (impl st)) m) l in
  loop_iteration st
  = Some (mkSystem
            (set_verbosity_map (subscript (message_source_verbosity_map (impl st)) (src m)).1
               (set_is_processing true
                  (set_message_queue q (set_is_processing false (impl st)))))
            (Looping (if passes (impl st) m then (display m l0).1 else l0)),
          if passes (impl st) m then (display m l0).2 else "").
Proof.
  intros Hc Hd Hq Ha l0. subst l0. unfold loop_iteration. rewrite Hc, Hq. cbn [pop].
  set (s1 := set_is_processing true _).
  assert (passes s1 m = passes (impl st) m) as Hp1 by reflexivity.
  destruct (passes (impl st) m) eqn:Hp.
  - rewrite (loop_body_displayed s1 l m Ha Hp1).
    replace (we_are_dead (set_verbosity_map _ s1)) with false by (symmetry; exact Hd).
    reflexivity.
  - rewrite (loop_body_dropped s1 l m Ha Hp1).
    replace (we_are_dead (set_verbosity_map _ s1)) with false by (symmetry; exact Hd).
    reflexivity.
Qed.

(** The state and the output an iteration leaves for a Kill message. *)
Lemma loop_iteration_kill_exact (st : System) (l : Loop_Locals) (m : Message_Parms)
    (q : list Message_Parms) :
  consumer st = Looping l -> message_queue (impl st) = m :: q -> action m = ACTION_KILL ->
  let exit_msg := mkMessage_Parms ACTION_DISPLAY_MSG (impl_thread (impl st))
                    (message_processor_src_id (impl st)) VERBOSITY_MINOR_STEPS
                    "Impl::run - exit" in
  loop_iteration st
  = Some (mkSystem
            (set_verbosity_map
               (subscript (message_source_verbosity_map (impl st))
                  (message_processor_src_id (impl st))).1
               (set_is_processing false
                  (set_we_are_dead true (set_message_queue q (impl st)))))
            Returned,
          if passes (impl st) exit_msg
          then display_text (message_source_name_map (impl st)) exit_msg +:+ endl
          else "").
Proof.
  intros Hc Hq Ha exit_msg. subst exit_msg.
  unfold loop_iteration. rewrite Hc, Hq. cbn [pop].
  unfold loop_body. rewrite Ha. cbn [we_are_dead set_we_are_dead].
  unfold loop_exit. rewrite make_msg_to_display_eq, append_nil_l. reflexivity.
Qed.

Lemma consumer_runs_returned (n : nat) (st : System) :
  consumer st = Returned -> consumer_runs n st = (st, "").
Proof.
  intros Hc. destruct n as [|n]; [reflexivity|]. cbn [consumer_runs].
  unfold loop_iteration. rewrite Hc. reflexivity.
Qed.

(** X15. A Kill message is the last message the consumer handles.  With Display
    messages [q1] ahead of it in the queue and any messages [q2] behind it:
    during the first [length q1] iterations the consumer is alive; the next
    iteration handles the Kill message, sets [we_are_dead] and ends the
    thread; the messages [q2] stay in the queue, and further scheduling of
    the consumer changes nothing and writes nothing. *)
Theorem kill_is_the_last_message_handled (q1 : list Message_Parms) :
  forall (st : System) (l : Loop_Locals) (k : Message_Parms) (q2 : list Message_Parms),
    consumer st = Looping l -> we_are_dead (impl st) = false ->
    message_queue (impl st) = q1 ++ k :: q2 ->
    Forall (fun m => action m = ACTION_DISPLAY_MSG) q1 ->
    action k = ACTION_KILL ->
    (forall n : nat, (n <= length q1)%nat ->
       we_are_dead (impl (consumer_runs n st).1) = false)
    /\ we_are_dead (impl (consumer_runs (S (length q1)) st).1) = true
    /\ consumer (consumer_runs (S (length q1)) st).1 = Returned
    /\ message_queue (impl (consumer_runs (S (length q1)) st).1) = q2
    /\ (forall n : nat,
          consumer_runs n (consumer_runs (S (length q1)) st).1
          = ((consumer_runs (S (length q1)) st).1, "")).
Proof.
  induction q1 as [|m q1 IH]; intros st l k q2 Hc Hd Hq Hall Hk.
  - cbn [app] in Hq. pose proof (loop_iteration_kill_exact st l k q2 Hc Hq Hk) as E.
    cbn zeta in E. cbn [length consumer_runs]. rewrite E. cbn [fst].
    split; [intros n Hn; replace n with O by (cbn in Hn; lia); exact Hd|].
    split; [reflexivity|]. split; [reflexivity|]. split; [reflexivity|].
    intros n. apply consumer_runs_returned. reflexivity.
  - inversion Hall as [|? ? Hm Hall']; subst.
    pose proof (loop_iteration_display_exact st l m (q1 ++ k :: q2) Hc Hd Hq Hm) as E.
    cbn zeta in E.
    set (st1 := mkSystem _ _) in E.
    destruct (IH st1 _ k q2 eq_refl Hd eq_refl Hall' Hk) as (H1 & H2 & H3 & H4 & H5).
    assert (forall n, (consumer_runs (S n) st).1 = (consumer_runs n st1).1) as Hrun.
    { intros n. cbn [consumer_runs]. rewrite E.
      destruct (consumer_runs n st1); reflexivity. }
    cbn [length]. rewrite (Hrun (S (length q1))).
    split; [intros [|n] Hn; [exact Hd | rewrite Hrun; apply H1; cbn in Hn; lia]|].
    split; [exact H2|]. split; [exact H3|]. split; [exact H4 | exact H5].
Qed.

(** A status message, the Kill message and a late message. *)
Lemma kill_is_the_last_message_handled_witness :
  let a := mkMessage_Parms ACTION_DISPLAY_MSG 1 0 VERBOSITY_MINOR_STEPS
             "killing message processor" in
  let k := mkMessage_Parms ACTION_KILL 1 0 VERBOSITY_QUIET "" in
  let b := mkMessage_Parms ACTION_DISPLAY_MSG 5 0 VERBOSITY_ERRORS "too late" in
  let st := mkSystem (set_message_queue [a; k; b] (Impl_init VERBOSITY_MINOR_STEPS 2))
              (Looping loop_init) in
  message_queue (impl (consumer_runs 2 st).1) = [b]
  /\ consumer (consumer_runs 2 st).1 = Returned.
Proof.
  intros a k b st.
  destruct (kill_is_the_last_message_handled [a] st loop_init k [b] eq_refl eq_refl eq_refl)
    as (_ & _ & H3 & H4 & _).
  - repeat constructor.
  - reflexivity.
  - split; [exact H4 | exact H3].
Defined.

(** ** Construction and destruction, end to end *)


(** X16. A construction that succeeds (the global was null and the thread [t]
    was started): the global holds the address of the object, nothing was
    written, source 0 is "Message_Processor" with ceiling Everything and the
    only source, and the consumer is at the top of its loop.  The start
    message is in the queue exactly when the overall verbosity is
    Everything, and then the first thing the consumer writes is the line
    shown, with the text attached to the source name; under every lower
    overall verbosity the queue is empty. *)
Theorem construction_starts_the_processor (this self t : Z) (v : Verbosity_Level) :
  let c := Message_Processor_ctor this self v (Some t) 0 in
  let start := mkMessage_Parms ACTION_DISPLAY_MSG self 0 VERBOSITY_EVERYTHING
                 "::Message_Processor - started Message_Processor" in
  singleton_after c = this
  /\ written c = ""
  /\ exists st : System,
       outcome c = inr st
       /\ consumer st = Looping loop_init
       /\ we_are_dead (impl st) = false
       /\ impl_thread (impl st) = t
       /\ message_source_name_map (impl st) = <[0 := "Message_Processor"]> ∅
       /\ message_source_verbosity_map (impl st) = <[0 := VERBOSITY_EVERYTHING]> ∅
       /\ overall_verbosity (impl st) = v
       /\ message_queue (impl st) = (if level_eqb v VERBOSITY_EVERYTHING then [start] else [])
       /\ (consumer_runs 1 st).2
          = (if level_eqb v VERBOSITY_EVERYTHING
             then "[" +:+ setw2 (dec self)
                    +:+ "] Debug:  Message_Processor::Message_Processor - started Message_Processor"
                    +:+ endl
             else "").
Proof.
  intros c start. subst c. unfold Message_Processor_ctor. cbn [Z.eqb negb Impl_ctor].
  cbn [singleton_after written outcome].
  split; [reflexivity|]. split; [reflexivity|].
  eexists. split; [reflexivity|]. cbn [consumer impl].
  assert (process_msg self (message_processor_src_id (Impl_init v t)) VERBOSITY_EVERYTHING
            "::Message_Processor - started Message_Processor" (Impl_init v t)
          = if level_eqb v VERBOSITY_EVERYTHING
            then set_message_queue [start] (Impl_init v t) else Impl_init v t) as E.
  { destruct v; reflexivity. }
  rewrite E. clear E.
  destruct v;
    match goal with
    | |- context [level_eqb ?a ?b] =>
        let r := eval vm_compute in (level_eqb a b) in
        replace (level_eqb a b) with r by reflexivity
    end; cbv iota;
    (split; [reflexivity|]); (split; [reflexivity|]); (split; [reflexivity|]);
    (split; [reflexivity|]); (split; [reflexivity|]); (split; [reflexivity|]);
    (split; [reflexivity|]); try reflexivity.
  cbn [consumer_runs].
  rewrite (loop_iteration_display_exact
             (mkSystem (set_message_queue [start] (Impl_init VERBOSITY_EVERYTHING t))
                (Looping loop_init))
             loop_init start [] eq_refl eq_refl eq_refl eq_refl).
  cbn [snd fst]. rewrite append_empty_r.
  replace (passes (set_message_queue [start] (Impl_init VERBOSITY_EVERYTHING t)) start)
    with true by reflexivity.
  unfold display.
  replace (is_ticker (msg start)) with false by reflexivity.
  unfold display_normal. cbn [tick_count set_msg_to_display loop_init msg_to_display
    prev_severity snd Z.eqb negb].
  replace (level_eqb VERBOSITY_ERRORS VERBOSITY_QUIET) with false by reflexivity.
  cbn [andb]. rewrite append_nil_l.
  unfold display_text, msg_src_str.
  replace (level_eqb (severity start) VERBOSITY_QUIET) with false by reflexivity.
  replace (message_source_name_map
             (set_message_queue [start] (Impl_init VERBOSITY_EVERYTHING t)) !! src start)
    with (Some "Message_Processor") by reflexivity.
  replace (String.eqb (substr0 2 (msg start)) "::") with true by reflexivity.
  replace (is_ticker (msg start)) with false by reflexivity.
  cbn [severity start msg_prefixes tid msg]. reflexivity.
Qed.



(** ** Annotated lines start on a fresh line *)

Lemma ends_with_endl_app (a b : string) : ends_with_endl b -> ends_with_endl (a +:+ b).
Proof. intros [p ->]. exists (a +:+ p). rewrite append_assoc. reflexivity. Qed.

Lemma display_text_ends_with_endl (names : gmap Z string) (m : Message_Parms) :
  severity m <> VERBOSITY_QUIET -> is_ticker (msg m) = false ->
  ends_with_endl (display_text names m).
Proof.
  intros Hq Ht. rewrite (display_text_annotated names m Hq), Ht.
  exists (line_prefix names m +:+ msg m). rewrite append_assoc. reflexivity.
Qed.

Lemma loop_body_fresh_line (s : Impl) (l : Loop_Locals) (m : Message_Parms)
    (pre : string) (b : Z) :
  fresh_line_inv (Looping l) pre b -> b < INT_MAX ->
  fresh_line_inv (Looping (loop_body s l m).1.2) (pre +:+ (loop_body s l m).2) (b + 1).
Proof.
  intros [Hb Hinv] Hmax. destruct (action m) eqn:Ha.
  - unfold loop_body. rewrite Ha. cbn [fst snd]. rewrite append_empty_r.
    split; [lia | exact Hinv].
  - destruct (passes s m) eqn:Hp.
    2:{ rewrite (loop_body_dropped s l m Ha Hp). cbn [fst snd]. rewrite append_empty_r.
        split; [cbn; lia | exact Hinv]. }
    rewrite (loop_body_displayed s l m Ha Hp). cbn [fst snd].
    unfold display. destruct (is_ticker (msg m)) eqn:Ht.
    + unfold display_ticker.
      cbn [tick_count set_msg_to_display prev_msg prev_tid prev_src prev_severity
           msg_to_display].
      destruct (tick_count l =? 0) eqn:E0; cbn [negb].
      * cbn [fst snd]. split; [cbn [tick_count]; lia|].
        cbn [tick_count]. intros H. discriminate H.
      * apply Z.eqb_neq in E0.
        destruct (same_source m _); [destruct (negb _)|]; cbn [fst snd];
          (split; [cbn [tick_count]; rewrite ?incr_small by lia; lia|]);
          cbn [tick_count]; rewrite ?incr_small by lia; intros H; lia.
    + unfold display_normal. cbn [fst snd tick_count prev_severity set_msg_to_display
        msg_to_display].
      split; [cbn [tick_count]; lia|]. cbn [tick_count prev_severity]. intros _ Hq. right.
      apply ends_with_endl_app, ends_with_endl_app.
      apply display_text_ends_with_endl; assumption.
Qed.

Lemma step_fresh_line (o : Op) (st : System) (pre : string) (b : Z) :
  fresh_line_inv (consumer st) pre b -> b < INT_MAX ->
  fresh_line_inv (consumer (step o st).1) (pre +:+ (step o st).2) (b + 1).
Proof.
  intros Hinv Hmax.
  assert (fresh_line_inv (consumer st) (pre +:+ "") (b + 1)) as Hsame.
  { rewrite append_empty_r. destruct (consumer st) as [l|]; [|exact I].
    destruct Hinv as [Hb Hi]. split; [lia | exact Hi]. }
  destruct o; cbn [step fst snd on_impl consumer]; try exact Hsame.
  unfold loop_iteration. destruct (consumer st) as [l|] eqn:Hc;
    [|cbn [fst snd]; rewrite Hc; exact Hsame].
  destruct (message_queue (impl st)) as [|m q]; cbn [pop];
    [cbn [fst snd]; rewrite Hc; exact Hsame|].
  set (s1 := set_is_processing true _).
  pose proof (loop_body_fresh_line s1 l m pre b Hinv Hmax) as H.
  destruct (loop_body s1 l m) as [[s2 l2] out2]. cbn [fst snd] in H.
  destruct (we_are_dead s2).
  - destruct (loop_exit s2) as [s3 out3]. exact I.
  - exact H.
Qed.

Lemma run_fresh_line (ops : list Op) : forall (st : System) (pre : string) (b : Z),
  fresh_line_inv (consumer st) pre b -> b + Z.of_nat (length ops) <= INT_MAX ->
  fresh_line_inv (consumer (run ops st).1) (pre +:+ (run ops st).2)
    (b + Z.of_nat (length ops)).
Proof.
  induction ops as [|o ops IH]; intros st pre b Hinv Hmax; cbn [run].
  - cbn [fst snd length]. rewrite append_empty_r, Z.add_0_r. exact Hinv.
  - cbn [length] in Hmax |- *.
    pose proof (step_fresh_line o st pre b Hinv ltac:(lia)) as H1.
    destruct (step o st) as [st1 out1]. cbn [fst snd] in H1.
    specialize (IH st1 (pre +:+ out1) (b + 1) H1 ltac:(lia)).
    destruct (run ops st1) as [st2 out2]. cbn [fst snd] in *.
    rewrite append_assoc in IH.
    replace (b + Z.of_nat (S (length ops))) with (b + 1 + Z.of_nat (length ops)) by lia.
    exact IH.
Qed.

(** X18. Every line with a prefix is written at the start of a line.  Let the
    consumer start its loop with nothing written, and let any schedule of
    calls and consumer iterations (shorter than [INT_MAX]) have produced
    the text [out].  When the consumer then displays a message that is
    neither Quiet nor a ticker, it writes a lead (empty or a line break)
    and the rendered line, the lead leaves the output at a line start, and
    the rendered line ends with a line break. *)
Theorem annotated_line_starts_fresh (ops : list Op) (st0 st : System) (out : string)
    (l : Loop_Locals) (m : Message_Parms) (q : list Message_Parms) :
  consumer st0 = Looping loop_init ->
  Z.of_nat (length ops) < INT_MAX ->
  run ops st0 = (st, out) ->
  consumer st = Looping l -> we_are_dead (impl st) = false ->
  message_queue (impl st) = m :: q ->
  action m = ACTION_DISPLAY_MSG -> passes (impl st) m = true ->
  is_ticker (msg m) = false -> severity m <> VERBOSITY_QUIET ->
  exists (st' : System) (lead : string),
    loop_iteration st
    = Some (st', lead +:+ display_text (message_source_name_map (impl st)) m)
    /\ (lead = "" \/ lead = endl)
    /\ at_line_start (out +:+ lead)
    /\ ends_with_endl (display_text (message_source_name_map (impl st)) m).
Proof.
  intros Hc0 Hlen Hrun Hc Hd Hq Ha Hp Ht Hsev.
  assert (fresh_line_inv (consumer st) out (Z.of_nat (length ops))) as Hinv.
  { pose proof (run_fresh_line ops st0 "" 0) as H. rewrite Hrun, Hc0 in H.
    cbn [fst snd] in H. rewrite append_nil_l, Z.add_0_l in H. apply H; [|lia].
    split; [cbn; lia|]. intros _ _. left. reflexivity. }
  rewrite Hc in Hinv. destruct Hinv as [_ Hinv].
  pose proof (loop_iteration_display_exact st l m q Hc Hd Hq Ha) as E.
  cbn zeta in E. rewrite Hp in E. revert E.
  unfold display. rewrite Ht. unfold display_normal.
  cbn [tick_count set_msg_to_display prev_severity msg_to_display fst snd].
  rewrite (level_eqb_neq _ _ Hsev). cbn [negb]. rewrite andb_true_r.
  intros E. eexists. eexists. split; [exact E|].
  split; [|split; [|apply display_text_ends_with_endl; assumption]].
  - destruct (negb (tick_count l =? 0)); [right; reflexivity|].
    destruct (level_eqb (prev_severity l) VERBOSITY_QUIET); [right | left]; reflexivity.
  - destruct (tick_count l =? 0) eqn:E0; cbn [negb].
    + apply Z.eqb_eq in E0.
      destruct (level_eqb (prev_severity l) VERBOSITY_QUIET) eqn:Eq.
      * right. exists out. reflexivity.
      * rewrite append_empty_r. apply Hinv; [exact E0|].
        intros Hq'. rewrite Hq' in Eq. discriminate.
    + right. exists out. reflexivity.
Qed.

(** Raw output without a line break, and then an error message. *)
Lemma annotated_line_starts_fresh_witness :
  let ops := [Call_process_msg 5 0 VERBOSITY_QUIET "raw"; Consumer_iteration;
              Call_process_msg 5 0 VERBOSITY_ERRORS "failed"] in
  exists (st' : System) (lead : string),
    loop_iteration (run ops fresh_system).1
    = Some (st', lead +:+ "[ 5] Error:  Message_Processor - failed" +:+ endl)
    /\ at_line_start ("raw" +:+ lead).
Proof.
  intros ops.
  destruct (annotated_line_starts_fresh ops fresh_system (run ops fresh_system).1 "raw"
              (mkLocals 0 "raw" "raw" 5 0 VERBOSITY_QUIET)
              (mkMessage_Parms ACTION_DISPLAY_MSG 5 0 VERBOSITY_ERRORS "failed") []
              eq_refl eq_refl eq_refl eq_refl eq_refl eq_refl eq_refl eq_refl eq_refl)
    as (st' & lead & E & _ & H & _).
  - discriminate.
  - exists st', lead. split; [exact E | exact H].
Defined.

(** ** Thread ids that an [int] cannot hold *)

Lemma to_int_range (z : Z) : - 2 ^ 31 <= to_int z < 2 ^ 31.
Proof.
  unfold to_int, int_bits.
  replace (2 ^ (32 - 1)) with 2147483648 by reflexivity.
  replace (2 ^ 32) with 4294967296 by reflexivity.
  replace (2 ^ 31) with 2147483648 by reflexivity.
  pose proof (Z.mod_pos_bound (z + 2147483648) 4294967296). lia.
Qed.

Lemma remembered_tid_differs (t : Z) :
  2 ^ 31 <= t < 2 ^ 64 - 2 ^ 31 -> to_ulong (to_int t) <> t.
Proof.
  intros Ht. pose proof (to_int_range t) as Hr. unfold to_ulong, ulong_bits.
  replace (2 ^ 31) with 2147483648 in * by reflexivity.
  replace (2 ^ 64) with 18446744073709551616 in * by reflexivity.
  destruct (Z_lt_le_dec (to_int t) 0) as [Hneg | Hpos].
  - replace (to_int t) with (to_int t + 18446744073709551616
                             + (-1) * 18446744073709551616) by lia.
    rewrite Z_mod_plus_full, Z.mod_small by lia. lia.
  - rewrite Z.mod_small by lia. lia.
Qed.

(** X19. A thread whose id does not fit into an [int] (from 2^31 up to
    2^64 - 2^31 - 1, where the ids of an LP64 system lie) is not recognised
    as the owner of its own ticker: when it sends the same ticker message
    twice to a loop that is not ticking, the second message is answered with
    a glyph of the rotation for interrupting sources, not with the next
    glyph of the normal rotation. *)
Theorem wide_thread_id_not_recognised (st : System) (l : Loop_Locals) (m : Message_Parms)
    (rest : list Message_Parms) :
  2 ^ 31 <= tid m < 2 ^ 64 - 2 ^ 31 ->
  consumer st = Looping l -> we_are_dead (impl st) = false ->
  tick_count l = 0 ->
  message_queue (impl st) = m :: m :: rest ->
  action m = ACTION_DISPLAY_MSG -> passes (impl st) m = true -> is_ticker (msg m) = true ->
  (consumer_runs 2 st).2
  = display_text (message_source_name_map (impl st)) m +:+ tick_string 0
      +:+ mod_tick_string 1
  /\ mod_tick_string 1 <> tick_string 1.
Proof.
  intros Htid Hc Hd Ht0 Hq Ha Hp Ht.
  split; [|discriminate].
  pose proof (loop_iteration_display_exact st l m (m :: rest) Hc Hd Hq Ha) as E1.
  cbn zeta in E1. rewrite Hp in E1.
  set (st1 := mkSystem _ _) in E1.
  assert (passes (impl st1) m = true) as Hp1.
  { subst st1. cbn [impl].
    change (passes (set_verbosity_map
                      (subscript (message_source_verbosity_map (impl st)) (src m)).1
                      (impl st)) m = true).
    rewrite passes_after_subscript. exact Hp. }
  pose proof (loop_iteration_display_exact st1 _ m rest eq_refl Hd eq_refl Ha) as E2.
  cbn zeta in E2. rewrite Hp1 in E2.
  change (message_source_name_map (impl st1)) with (message_source_name_map (impl st)) in E2.
  cbn [consumer_runs]. rewrite E1, E2. cbn [fst snd]. rewrite append_empty_r.
  unfold display. rewrite Ht.
  set (text := display_text (message_source_name_map (impl st)) m).
  assert (display_ticker m (set_msg_to_display text l)
          = (mkLocals 1 (msg m) text (to_int (tid m)) (src m) (prev_severity l),
             text +:+ tick_string 0)) as Ed1.
  { unfold display_ticker.
    cbn [tick_count set_msg_to_display prev_msg prev_tid prev_src prev_severity
         msg_to_display]. rewrite Ht0. reflexivity. }
  rewrite Ed1. cbn [fst snd].
  unfold display_ticker, same_source.
  cbn [tick_count set_msg_to_display prev_msg prev_tid prev_src prev_severity
       msg_to_display Z.eqb negb].
  rewrite Z.eqb_refl. cbn [andb].
  pose proof (remembered_tid_differs (tid m) Htid) as Hne.
  assert ((tid m =? to_ulong (to_int (tid m))) = false) as ->
    by (apply Z.eqb_neq; congruence).
  cbn [fst snd]. rewrite append_assoc. reflexivity.
Qed.

(** Thread 140737345918720 reports "loading ." twice. *)
Lemma wide_thread_id_not_recognised_witness :
  let m := mkMessage_Parms ACTION_DISPLAY_MSG 140737345918720 0 VERBOSITY_ERRORS
             "loading ." in
  let st := mkSystem (set_message_queue [m; m] (Impl_init VERBOSITY_MINOR_STEPS 2))
              (Looping loop_init) in
  (consumer_runs 2 st).2
  = "[140737345918720] Error:  Message_Processor - loading ." +:+ String BS "|"
      +:+ String BS "X".
Proof.
  intros m st.
  refine (proj1 (wide_thread_id_not_recognised st loop_init m [] _ eq_refl eq_refl eq_refl
                   eq_refl eq_refl eq_refl eq_refl)).
  vm_compute. split; [discriminate | reflexivity].
Defined.

(** ** Registering sources while other threads run *)

(** The three statements make up the call. *)
Lemma register_msg_src_statements (v : Verbosity_Level) (str : string) (s : Impl) :
  register_msg_src v str s
  = (register_level (register_size s) v (register_name (register_size s) str s),
     register_size s).
Proof. reflexivity. Qed.

Lemma run_names_no_registration (ops : list Op) : forall st : System,
  no_registration ops = true ->
  message_source_name_map (impl (run ops st).1) = message_source_name_map (impl st).
Proof.
  induction ops as [|o ops IH]; intros st Hno; cbn [run]; [reflexivity|].
  cbn [no_registration forallb] in Hno. apply andb_true_iff in Hno.
  destruct Hno as [Ho Hno]. fold (no_registration ops) in Hno.
  pose proof (step_names o st) as Hs.
  destruct (step o st) as [st1 out1]. cbn [fst] in Hs.
  specialize (IH st1 Hno). destruct (run ops st1) as [st2 out2]. cbn [fst] in *.
  rewrite IH. destruct o; try exact Hs. discriminate Ho.
Qed.

(** What a step that overlaps no other registration does to the name map,
    and the id it returns. *)
Lemma sched_step_names (o : Sched_Op) (st : System) :
  serialized o = true ->
  message_source_name_map (impl (sched_step o st).1.1)
  = match registered_name o with
    | Some str => <[register_size (impl st) := str]> (message_source_name_map (impl st))
    | None => message_source_name_map (impl st)
    end
  /\ (sched_step o st).2
     = match registered_name o with
       | Some _ => [register_size (impl st)]
       | None => []
       end.
Proof.
  intros Hser. destruct o as [o | v str ops1 ops2].
  - cbn [sched_step]. pose proof (step_names o st) as Hs.
    destruct (step o st) as [st1 out1]. cbn [fst snd] in *.
    destruct o; cbn [registered_name]; split; try reflexivity; exact Hs.
  - cbn [serialized] in Hser. apply andb_true_iff in Hser. destruct Hser as [H1 H2].
    cbn [sched_step registered_name].
    pose proof (run_names_no_registration ops1 st H1) as E1.
    destruct (run ops1 st) as [st1 out1]. cbn [fst] in E1.
    pose proof (run_names_no_registration ops2
                  (on_impl (register_name (register_size (impl st)) str) st1) H2) as E2.
    destruct (run ops2 _) as [st3 out2]. cbn [fst snd] in *.
    split; [|reflexivity].
    cbn [on_impl impl register_level message_source_name_map set_verbosity_map].
    rewrite E2. cbn [on_impl impl register_name message_source_name_map set_name_map].
    rewrite E1. reflexivity.
Qed.

(** X6. Ids are handed out in order and never reused as long as calls of
    [register_msg_src] do not overlap one another.  Take any schedule in
    which process_msg and set_overall_verbosity calls and consumer
    iterations may run between the statements of a [register_msg_src] call,
    but no second [register_msg_src] call does.  From a name map holding the
    ids 0 .. n - 1, with [r] registrations in the schedule (n + r within
    [int]), the calls return n, n + 1, ..., n + r - 1 in this order, the
    name map ends up holding the ids 0 .. n + r - 1, and the ids
    0 .. n - 1 keep their names. *)
Theorem serialized_registrations_get_successive_ids (ops : list Sched_Op) :
  forall st : System,
    forallb serialized ops = true ->
    dense (message_source_name_map (impl st)) ->
    Z.of_nat (base.size (message_source_name_map (impl st)))
      + Z.of_nat (sched_registrations ops) <= INT_MAX + 1 ->
    (run_sched ops st).2
    = List.map Z.of_nat
        (List.seq (base.size (message_source_name_map (impl st))) (sched_registrations ops))
    /\ dense (message_source_name_map (impl (run_sched ops st).1.1))
    /\ base.size (message_source_name_map (impl (run_sched ops st).1.1))
       = (base.size (message_source_name_map (impl st)) + sched_registrations ops)%nat
    /\ (forall k : Z, 0 <= k < Z.of_nat (base.size (message_source_name_map (impl st))) ->
          message_source_name_map (impl (run_sched ops st).1.1) !! k
          = message_source_name_map (impl st) !! k).
Proof.
  induction ops as [|o ops IH]; intros st Hser Hd Hmax; cbn [run_sched].
  - cbn [fst snd sched_registrations List.seq List.map].
    rewrite Nat.add_0_r.
    split; [reflexivity|]. split; [exact Hd|]. split; [reflexivity | intros; reflexivity].
  - cbn [forallb] in Hser. apply andb_true_iff in Hser. destruct Hser as [Ho Hser].
    destruct (sched_step_names o st Ho) as [Hn Hi].
    destruct (sched_step o st) as [[st1 out1] ids1]. cbn [fst snd] in Hn, Hi.
    assert (sched_registrations (o :: ops)
            = (match registered_name o with Some _ => 1 | None => 0 end
               + sched_registrations ops)%nat) as Hcount.
    { cbn [sched_registrations]. destruct (registered_name o); reflexivity. }
    rewrite Hcount in Hmax |- *.
    destruct (registered_name o) as [str|].
    + unfold register_size in Hn, Hi. rewrite to_int_size in Hn, Hi by lia.
      assert (dense (message_source_name_map (impl st1))) as Hd1.
      { rewrite Hn. apply dense_insert, Hd. }
      assert (base.size (message_source_name_map (impl st1))
              = S (base.size (message_source_name_map (impl st)))) as Hsz.
      { rewrite Hn. apply map_size_insert_None, dense_fresh, Hd. }
      destruct (IH st1 Hser Hd1 ltac:(rewrite Hsz; lia)) as (H1 & H2 & H3 & H4).
      destruct (run_sched ops st1) as [[st2 out2] ids2]. cbn [fst snd] in *.
      subst ids1 ids2. rewrite Hsz.
      split; [reflexivity|]. split; [exact H2|]. split; [rewrite H3, Hsz; lia|].
      intros k Hk. rewrite H4 by (rewrite Hsz; lia).
      rewrite Hn. apply lookup_insert_ne. lia.
    + rewrite <- Hn in Hd, Hmax |- *.
      destruct (IH st1 Hser Hd Hmax) as (H1 & H2 & H3 & H4).
      destruct (run_sched ops st1) as [[st2 out2] ids2]. cbn [fst snd] in *.
      subst ids1 ids2.
      split; [reflexivity|]. split; [exact H2|]. split; [exact H3 | exact H4].
Qed.

(** "Net" is registered while a message is sent and displayed between the
    statements of the call; "Disk" is registered afterwards. *)
Lemma serialized_registrations_get_successive_ids_witness :
  let ops := [Split_register VERBOSITY_EVERYTHING "Net"
                [Call_process_msg 5 0 VERBOSITY_ERRORS "connect failed"]
                [Consumer_iteration];
              Whole (Call_register_msg_src VERBOSITY_ERRORS "Disk")] in
  (run_sched ops fresh_system).2 = [1; 2]
  /\ base.size (message_source_name_map (impl (run_sched ops fresh_system).1.1)) = 3%nat.
Proof.
  intros ops.
  destruct (serialized_registrations_get_successive_ids ops fresh_system eq_refl dense_init)
    as (H1 & _ & H3 & _).
  - vm_compute. discriminate.
  - split; [exact H1 | exact H3].
Defined.

(** X21. Calls of [register_msg_src] that overlap share an id.  When a
    second call runs as a whole between the first and the second statement
    of a call, both have read the same size of the name map: both return
    the same id, the name map grows by one entry only, and the name and the
    level written last, those of the call that started first, are the ones
    that stay. *)
Theorem overlapping_registrations_share_an_id (st : System) (v1 v2 : Verbosity_Level)
    (str1 str2 : string) :
  dense (message_source_name_map (impl st)) ->
  Z.of_nat (base.size (message_source_name_map (impl st))) <= INT_MAX ->
  let n := Z.of_nat (base.size (message_source_name_map (impl st))) in
  let r := sched_step (Split_register v1 str1 [Call_register_msg_src v2 str2] []) st in
  serialized (Split_register v1 str1 [Call_register_msg_src v2 str2] []) = false
  /\ r.2 = [n]
  /\ (register_msg_src v2 str2 (impl st)).2 = n
  /\ message_source_name_map (impl r.1.1) !! n = Some str1
  /\ ceiling_of (message_source_verbosity_map (impl r.1.1)) n = v1
  /\ base.size (message_source_name_map (impl r.1.1))
     = S (base.size (message_source_name_map (impl st))).
Proof.
  intros Hd Hmax n r. subst n r.
  cbn [sched_step run step on_impl impl fst snd].
  unfold register_msg_src, register_size.
  cbn [fst snd register_name register_level on_impl impl message_source_name_map
       message_source_verbosity_map set_name_map set_verbosity_map].
  rewrite !(to_int_size _ Hmax).
  split; [reflexivity|]. split; [reflexivity|]. split; [reflexivity|].
  split; [apply lookup_insert_eq|].
  split; [unfold ceiling_of; rewrite lookup_insert_eq; reflexivity|].
  rewrite insert_insert_eq. apply map_size_insert_None, dense_fresh, Hd.
Qed.

(** "Disk" is registered inside the registration of "Net". *)
Lemma overlapping_registrations_share_an_id_witness :
  let r := sched_step (Split_register VERBOSITY_EVERYTHING "Net"
                         [Call_register_msg_src VERBOSITY_ERRORS "Disk"] [])
             fresh_system in
  r.2 = [1]
  /\ (register_msg_src VERBOSITY_ERRORS "Disk" (impl fresh_system)).2 = 1
  /\ message_source_name_map (impl r.1.1) !! 1 = Some "Net".
Proof.
  intros r.
  destruct (overlapping_registrations_share_an_id fresh_system VERBOSITY_EVERYTHING
              VERBOSITY_ERRORS "Net" "Disk" dense_init) as (_ & H2 & H3 & H4 & _).
  - vm_compute. discriminate.
  - split; [exact H2|]. split; [exact H3 | exact H4].
Defined.
